(** * A shallow embedding of the Tetris engine of [src/App.tsx]

    The component keeps five pieces of React state ([board],
    [currentPiece], [position], [gameOver], [score]).  Every callback reads
    the values captured by the render in which it was created and queues
    updates; React applies the queued updates in order when the callback
    returns (batched updates), commits, and then runs the effects whose
    dependencies changed.  The embedding makes this explicit: a handler is a
    function from the rendered [State] to the list of [Update]s it queues,
    [applyUpdates] commits them, and [settle] runs the effects.  One event
    ([dispatch]) is one handler, its commit and the effects that follow; the
    host event loop serializes events, so the next handler sees the settled
    state.

    JavaScript arrays are lists; an index that is out of range reads as
    [undefined], and reading or writing a property of [undefined] throws a
    TypeError, which is the only exception the engine can raise.  Numbers
    are integers throughout the engine and are modelled in [Z].  The value
    of [Math.random] enters as the index [rnd] that [spawnNewPiece] computes
    from it. *)

From Stdlib Require Import ZArith String Bool Lia.
From stdpp Require Import base list.

Local Open Scope Z_scope.

(** ** Exceptions *)

Inductive result (A : Type) : Type :=
| Ok (a : A)
| TypeError.
Arguments Ok {A} a.
Arguments TypeError {A}.

#[global] Instance result_bind : MBind result := fun _ _ k r =>
  match r with
  | Ok a => k a
  | TypeError => TypeError
  end.

(** ** Constants and data *)

Definition BOARD_WIDTH : Z := 10.
Definition BOARD_HEIGHT : Z := 20.

Record Tetromino : Type := { shape : list (list Z); color : string }.

Definition TETROMINOS : list Tetromino :=
  [ {| shape := [[1; 1]; [1; 1]];       color := "#ffd800" |};
    {| shape := [[1; 1; 1; 1]];         color := "#00f0f0" |};
    {| shape := [[1; 1; 1]; [0; 1; 0]]; color := "#aa00ff" |};
    {| shape := [[1; 1; 0]; [0; 1; 1]]; color := "#ff0000" |};
    {| shape := [[0; 1; 1]; [1; 1; 0]]; color := "#00ff00" |};
    {| shape := [[1; 1; 1]; [1; 0; 0]]; color := "#0000ff" |};
    {| shape := [[1; 1; 1]; [0; 0; 1]]; color := "#ff7f00" |} ].

(** A board cell has type [string | 0].  [Undef] stands for a slot that
    holds neither: it only arises when an assignment past the end of a row
    makes JavaScript extend the array. *)
Inductive Cell : Type :=
| Zero
| Color (c : string)
| Undef.

Abbreviation Board := (list (list Cell)).

Definition createEmptyBoard : Board :=
  replicate (Z.to_nat BOARD_HEIGHT) (replicate (Z.to_nat BOARD_WIDTH) Zero).

(** [cell === 0] *)
Definition isZero (c : Cell) : bool :=
  match c with
  | Zero => true
  | _ => false
  end.

(** Truthiness of a shape entry, as tested by [if (piece.shape[y][x])]. *)
Definition truthy (v : Z) : bool := negb (v =? 0).

(** [arr[i]] for a numeric index: [None] is [undefined]. *)
Definition js_get {A} (arr : list A) (i : Z) : option A :=
  if i <? 0 then None else arr !! Z.to_nat i.

(** ** isValidMove (App.tsx, lines 38-55) *)

(** The condition of the [if] at lines 44-48, with its short-circuit
    evaluation: the board is only read when the first three tests fail and
    [boardY >= 0]. *)
Definition collides (board : Board) (boardX boardY : Z) : result bool :=
  if (boardX <? 0) || (boardX >=? BOARD_WIDTH) || (boardY >=? BOARD_HEIGHT) then Ok true
  else if boardY >=? 0 then
    match js_get board boardY with
    | None => TypeError
    | Some row =>
        match js_get row boardX with
        | Some Zero => Ok false
        | _ => Ok true
        end
    end
  else Ok false.

(** The inner loop, from column index [x] on, over the remaining entries of
    [piece.shape[y]]. *)
Fixpoint isValidMove_row (board : Board) (cells : list Z) (x newX boardY : Z)
  : result bool :=
  match cells with
  | [] => Ok true
  | v :: cells' =>
      if truthy v then
        hit ← collides board (newX + x) boardY;
        if (hit : bool) then Ok false
        else isValidMove_row board cells' (x + 1) newX boardY
      else isValidMove_row board cells' (x + 1) newX boardY
  end.

(** The outer loop, from row index [y] on. *)
Fixpoint isValidMove_rows (board : Board) (rows : list (list Z)) (y newX newY : Z)
  : result bool :=
  match rows with
  | [] => Ok true
  | cells :: rows' =>
      ok ← isValidMove_row board cells 0 newX (newY + y);
      if (ok : bool) then isValidMove_rows board rows' (y + 1) newX newY
      else Ok false
  end.

Definition isValidMove (board : Board) (piece : Tetromino) (newX newY : Z)
  : result bool :=
  isValidMove_rows board (shape piece) 0 newX newY.

(** ** React state *)

Record Position : Type := { x : Z; y : Z }.

Record State : Type := {
  board : Board;
  currentPiece : option Tetromino;
  position : Position;
  gameOver : bool;
  score : Z
}.

(** The mounted component before its first effect has run (lines 26-30). *)
Definition initialState : State :=
  {| board := createEmptyBoard;
     currentPiece := None;
     position := {| x := 0; y := 0 |};
     gameOver := false;
     score := 0 |}.

(** A queued state update.  [setPosition] is the only setter the source
    calls with an updater function ([prev => ...]); [setCurrentPiece]
    receives [TETROMINOS[i]], which is [undefined] ([None]) when [i] is out
    of range. *)
Inductive Update : Type :=
| setBoard (b : Board)
| setCurrentPiece (p : option Tetromino)
| setPosition (f : Position -> Position)
| setGameOver (b : bool)
| setScore (n : Z).

Definition applyUpdate (s : State) (u : Update) : State :=
  match u with
  | setBoard b =>
      {| board := b; currentPiece := currentPiece s; position := position s;
         gameOver := gameOver s; score := score s |}
  | setCurrentPiece p =>
      {| board := board s; currentPiece := p; position := position s;
         gameOver := gameOver s; score := score s |}
  | setPosition f =>
      {| board := board s; currentPiece := currentPiece s; position := f (position s);
         gameOver := gameOver s; score := score s |}
  | setGameOver b =>
      {| board := board s; currentPiece := currentPiece s; position := position s;
         gameOver := b; score := score s |}
  | setScore n =>
      {| board := board s; currentPiece := currentPiece s; position := position s;
         gameOver := gameOver s; score := n |}
  end.

(** Committing a batch: the queue is processed in order. *)
Definition applyUpdates (s : State) (us : list Update) : State :=
  fold_left applyUpdate us s.

(** ** spawnNewPiece (lines 32-36)

    [rnd] is the value of [Math.floor(Math.random() * TETROMINOS.length)]. *)
Definition spawnNewPiece (rnd : nat) : list Update :=
  let newPiece := TETROMINOS !! rnd in
  [ setCurrentPiece newPiece;
    setPosition (fun _ => {| x := BOARD_WIDTH / 2 - 1; y := 0 |}) ].

(** ** mergePieceToBoard (lines 57-68) *)

(** [arr[i] = v]: a negative index adds a property and leaves the elements
    alone, an index past the end extends the array. *)
Definition js_set {A} (hole : A) (arr : list A) (i : Z) (v : A) : list A :=
  if i <? 0 then arr
  else if (Z.to_nat i <? length arr)%nat then <[Z.to_nat i := v]> arr
  else arr ++ replicate (Z.to_nat i - length arr)%nat hole ++ [v].

(** [newBoard[boardY][boardX] = v]; throws when [newBoard[boardY]] is
    [undefined]. *)
Definition assignCell (newBoard : Board) (boardY boardX : Z) (v : Cell)
  : result Board :=
  match js_get newBoard boardY with
  | None => TypeError
  | Some row => Ok (<[Z.to_nat boardY := js_set Undef row boardX v]> newBoard)
  end.

Fixpoint merge_row (newBoard : Board) (cells : list Z) (x posX boardY : Z)
  (c : string) : result Board :=
  match cells with
  | [] => Ok newBoard
  | v :: cells' =>
      if truthy v then
        b ← assignCell newBoard boardY (posX + x) (Color c);
        merge_row b cells' (x + 1) posX boardY c
      else merge_row newBoard cells' (x + 1) posX boardY c
  end.

Fixpoint merge_rows (newBoard : Board) (rows : list (list Z)) (y posX posY : Z)
  (c : string) : result Board :=
  match rows with
  | [] => Ok newBoard
  | cells :: rows' =>
      b ← merge_row newBoard cells 0 posX (posY + y) c;
      merge_rows b rows' (y + 1) posX posY c
  end.

(** The board handed to [setBoard]; [board.map(row => [...row])] copies the
    rows, which a list already is. *)
Definition mergedBoard (board : Board) (piece : Tetromino) (pos : Position)
  : result Board :=
  merge_rows board (shape piece) 0 (x pos) (y pos) (color piece).

Definition mergePieceToBoard (s : State) : result (list Update) :=
  match currentPiece s with
  | None => Ok []
  | Some piece =>
      newBoard ← mergedBoard (board s) piece (position s);
      Ok [setBoard newBoard]
  end.

(** ** moveDown (lines 70-77), moveHorizontally (lines 79-83) *)

Definition moveDown (s : State) (rnd : nat) : result (list Update) :=
  match currentPiece s with
  | Some piece =>
      ok ← isValidMove (board s) piece (x (position s)) (y (position s) + 1);
      if (ok : bool)
      then Ok [setPosition (fun prev => {| x := x prev; y := y prev + 1 |})]
      else
        merged ← mergePieceToBoard s;
        Ok (merged ++ spawnNewPiece rnd)
  | None => Ok []
  end.

Definition moveHorizontally (s : State) (direction : Z) : result (list Update) :=
  match currentPiece s with
  | Some piece =>
      ok ← isValidMove (board s) piece (x (position s) + direction) (y (position s));
      if (ok : bool)
      then Ok [setPosition (fun prev => {| x := x prev + direction; y := y prev |})]
      else Ok []
  | None => Ok []
  end.

(** ** rotate (lines 85-96) *)

(** [shape[0].map((_, index) => shape.map(row => row[index]).reverse())].
    [shape[0]] is [undefined] for an empty matrix and [.map] on it throws.
    An entry [row[index]] past the end of a short row is [undefined]; the
    engine only ever tests entries for truthiness, so it is read as [0]. *)
Definition rotateShape (sh : list (list Z)) : result (list (list Z)) :=
  match sh with
  | [] => TypeError
  | row0 :: _ =>
      Ok ((fun index => reverse ((fun row => nth index row 0) <$> sh))
            <$> seq 0 (length row0))
  end.

Definition rotate (s : State) : result (list Update) :=
  match currentPiece s with
  | None => Ok []
  | Some piece =>
      sh ← rotateShape (shape piece);
      let rotatedPiece := {| shape := sh; color := color piece |} in
      ok ← isValidMove (board s) rotatedPiece (x (position s)) (y (position s));
      if (ok : bool) then Ok [setCurrentPiece (Some rotatedPiece)] else Ok []
  end.

(** ** checkLines (lines 98-107) *)

(** [row.some(cell => cell === 0)] *)
Definition hasZero (row : list Cell) : bool := existsb isZero row.

(** The [while] loop of lines 103-105; [n] bounds the number of iterations
    by the number of missing rows, each iteration adding one. *)
Fixpoint unshiftRows (n : nat) (newBoard : Board) : Board :=
  match n with
  | O => newBoard
  | S n' =>
      if Z.of_nat (length newBoard) <? BOARD_HEIGHT
      then unshiftRows n' (replicate (Z.to_nat BOARD_WIDTH) Zero :: newBoard)
      else newBoard
  end.

Definition linesCleared (board : Board) : Z :=
  BOARD_HEIGHT - Z.of_nat (length (List.filter hasZero board)).

Definition clearedBoard (board : Board) : Board :=
  let newBoard := List.filter hasZero board in
  unshiftRows (Z.to_nat (BOARD_HEIGHT - Z.of_nat (length newBoard))) newBoard.

Definition checkLines (s : State) : list Update :=
  let newScore := score s + linesCleared (board s) * 100 in
  [setScore newScore; setBoard (clearedBoard (board s))].

(** ** Event handlers and effects *)

Inductive Event : Type :=
| KeyDown (key : string)
| Tick.

(** handleKeyPress (lines 114-123) *)
Definition handleKeyPress (s : State) (key : string) (rnd : nat)
  : result (list Update) :=
  if gameOver s then Ok []
  else if String.eqb key "ArrowLeft" then moveHorizontally s (-1)
  else if String.eqb key "ArrowRight" then moveHorizontally s 1
  else if String.eqb key "ArrowDown" then moveDown s rnd
  else if String.eqb key "ArrowUp" then rotate s
  else Ok [].

(** The interval callback (lines 134-137).  The interval only exists while
    [gameOver] is false (line 132).  [moveDown] and [checkLines] are the
    closures of one render: both read the same [board]. *)
Definition gameLoop (s : State) (rnd : nat) : result (list Update) :=
  if gameOver s then Ok []
  else
    moved ← moveDown s rnd;
    Ok (moved ++ checkLines s).

Definition handler (s : State) (ev : Event) (rnd : nat) : result (list Update) :=
  match ev with
  | KeyDown key => handleKeyPress s key rnd
  | Tick => gameLoop s rnd
  end.

(** The effect of lines 109-111. *)
Definition spawnEffect (s : State) (rnd : nat) : list Update :=
  match currentPiece s with
  | None => spawnNewPiece rnd
  | Some _ => []
  end.

(** The effect of lines 144-148. *)
Definition gameOverEffect (s : State) : result (list Update) :=
  match currentPiece s with
  | Some piece =>
      ok ← isValidMove (board s) piece (x (position s)) (y (position s));
      if (ok : bool) then Ok [] else Ok [setGameOver true]
  | None => Ok []
  end.

(** One pass of the effects after a commit, and the commit of what they
    queue. *)
Definition runEffects (s : State) (rnd : nat) : result State :=
  over ← gameOverEffect s;
  Ok (applyUpdates s (spawnEffect s rnd ++ over)).

(** Effects run again after the commit they cause; two passes reach a state
    that further passes leave alone (see [settle_stable]). *)
Definition settle (s : State) (rnd : nat) : result State :=
  s1 ← runEffects s rnd;
  runEffects s1 rnd.

(** One event: the handler queues updates against the rendered state, the
    batch is committed, the effects run. *)
Definition dispatch (s : State) (ev : Event) (rnd : nat) : result State :=
  us ← handler s ev rnd;
  settle (applyUpdates s us) rnd.

Fixpoint run (s : State) (evs : list (Event * nat)) : result State :=
  match evs with
  | [] => Ok s
  | (ev, rnd) :: evs' =>
      s' ← dispatch s ev rnd;
      run s' evs'
  end.

Inductive reachable : State -> Prop :=
| reach_init : reachable initialState
| reach_step s ev rnd s' :
    reachable s ->
    (rnd < length TETROMINOS)%nat ->
    dispatch s ev rnd = Ok s' ->
    reachable s'.

(** ** Well-formedness predicates, as boolean tests *)

Definition isUndef (c : Cell) : bool :=
  match c with
  | Undef => true
  | _ => false
  end.

(** A board of [BOARD_HEIGHT] rows of [BOARD_WIDTH] cells, each [0] or a
    color. *)
Definition board_ok (b : Board) : bool :=
  (length b =? Z.to_nat BOARD_HEIGHT)%nat
  && forallb (fun row => (length row =? Z.to_nat BOARD_WIDTH)%nat
                         && forallb (fun c => negb (isUndef c)) row) b.

(** [shape[i][j]] is present and truthy. *)
Definition occupied (sh : list (list Z)) (i j : nat) : bool :=
  match sh !! i with
  | Some row =>
      match row !! j with
      | Some v => truthy v
      | None => false
      end
  | None => false
  end.

(** [board[boardY][boardX]], [None] when either index is out of range. *)
Definition cellAt (b : Board) (boardX boardY : Z) : option Cell :=
  row ← js_get b boardY; js_get row boardX.

(** The rejection condition of the specification for one absolute
    coordinate. *)
Definition blocked (b : Board) (boardX boardY : Z) : Prop :=
  boardX < 0
  \/ boardX >= BOARD_WIDTH
  \/ boardY >= BOARD_HEIGHT
  \/ (boardY >= 0 /\ exists c, cellAt b boardX boardY = Some (Color c)).

(** The absolute coordinate lies on the board. *)
Definition inRange (boardX boardY : Z) : bool :=
  (0 <=? boardX) && (boardX <? BOARD_WIDTH) && (0 <=? boardY) && (boardY <? BOARD_HEIGHT).

(** Every occupied cell of the shape, placed at [pos], lies on the board. *)
Definition inBounds (sh : list (list Z)) (pos : Position) : bool :=
  forallb (fun i =>
    forallb (fun j =>
      implb (occupied sh i j) (inRange (x pos + Z.of_nat j) (y pos + Z.of_nat i)))
      (seq 0 (length (default [] (sh !! i)))))
    (seq 0 (length sh)).

(** Column [X] is painted by the inner loop of [mergePieceToBoard] started
    at index [x0]; cell [(X, Y)] is painted by its outer loop started at
    index [y0]. *)
Definition hitRow (cells : list Z) (x0 posX X : Z) : Prop :=
  exists (j : nat) v, cells !! j = Some v /\ truthy v = true
                      /\ X = posX + (x0 + Z.of_nat j).

Definition hitRows (rows : list (list Z)) (y0 posX posY X Y : Z) : Prop :=
  exists i j : nat, occupied rows i j = true
                    /\ X = posX + Z.of_nat j /\ Y = posY + (y0 + Z.of_nat i).

(** A rectangular matrix with at least one row and one column. *)
Definition shape_ok (sh : list (list Z)) : bool :=
  match sh with
  | [] => false
  | row0 :: _ =>
      (0 <? length row0)%nat && forallb (fun row => (length row =? length row0)%nat) sh
  end.

(** The board coordinate is one of the piece's occupied cells. *)
Definition covers (piece : Tetromino) (pos : Position) (boardX boardY : Z) : bool :=
  (x pos <=? boardX) && (y pos <=? boardY)
  && occupied (shape piece) (Z.to_nat (boardY - y pos)) (Z.to_nat (boardX - x pos)).

Definition state_ok (s : State) : bool :=
  board_ok (board s) && (0 <=? y (position s))
  && match currentPiece s with
     | Some piece => shape_ok (shape piece) && inBounds (shape piece) (position s)
     | None => true
     end.

(** The invariant of the reachable states: besides [state_ok], a game that
    is not over has its piece on free cells, and a game that is over has a
    piece. *)
Definition Inv (s : State) : Prop :=
  state_ok s = true
  /\ (gameOver s = false -> forall piece, currentPiece s = Some piece ->
        isValidMove (board s) piece (x (position s)) (y (position s)) = Ok true)
  /\ (gameOver s = true -> currentPiece s <> None).

(** Every colored cell of [b] has the same color in [b']. *)
Definition keepsColors (b b' : Board) : Prop :=
  forall X Y c, cellAt b X Y = Some (Color c) -> cellAt b' X Y = Some (Color c).

(** The piece's row stays, grows by one, or is reset to 0 by a spawn. *)
Definition rowStep (s t : State) : Prop :=
  y (position t) = y (position s)
  \/ y (position t) = y (position s) + 1
  \/ y (position t) = 0.

(** What committing the updates of one key handler does to a state. *)
Definition keyStep (s t : State) : Prop :=
  state_ok t = true
  /\ gameOver t = gameOver s
  /\ score t = score s
  /\ keepsColors (board s) (board t)
  /\ rowStep s t.

(** ** The specification's wording of line clearing and rotation *)

(** A row is complete when it has zero empty cells. *)
Definition complete (row : list Cell) : bool := forallb (fun c => negb (isZero c)) row.

Fixpoint removeComplete (b : Board) : Board :=
  match b with
  | [] => []
  | row :: b' => if complete row then removeComplete b' else row :: removeComplete b'
  end.

Fixpoint countComplete (b : Board) : nat :=
  match b with
  | [] => O
  | row :: b' => if complete row then S (countComplete b') else countComplete b'
  end.

(** Transpose of a matrix given by its rows. *)
Fixpoint transpose (m : list (list Z)) : list (list Z) :=
  match m with
  | [] => []
  | row :: m' =>
      match m' with
      | [] => map (fun v => [v]) row
      | _ :: _ => zip_with cons row (transpose m')
      end
  end.

(** Transpose, then reverse every row. *)
Definition transposeReverse (m : list (list Z)) : list (list Z) :=
  reverse <$> transpose m.

(** [m[i][j]], read as 0 where the matrix has no entry. *)
Definition entry (m : list (list Z)) (i j : nat) : Z := nth j (nth i m []) 0.

(** [h] rows of [w] entries each. *)
Definition rect (h w : nat) (m : list (list Z)) : Prop :=
  length m = h /\ Forall (fun row => length row = w) m.

(** ** Running handlers in isolation *)

(** The state committed when only the updates [us] are queued. *)
Definition commit (s : State) (us : result (list Update)) : result State :=
  us ← us; Ok (applyUpdates s us).

Definition rotateStep (s : State) : result State := commit s (rotate s).

(** The state [s] with [piece] as its current piece. *)
Definition withPiece (s : State) (piece : Tetromino) : State :=
  {| board := board s; currentPiece := Some piece; position := position s;
     gameOver := gameOver s; score := score s |}.

(** [rotate] found the rotated piece valid and queued it. *)
Definition rotateAccepted (s : State) : bool :=
  match rotate s with
  | Ok (_ :: _) => true
  | _ => false
  end.

(** Four rotations in a row: of a matrix, and of the piece of a state. *)
Definition rotateShape4 (sh : list (list Z)) : result (list (list Z)) :=
  s1 ← rotateShape sh; s2 ← rotateShape s1; s3 ← rotateShape s2; rotateShape s3.

Definition rotateStep4 (s : State) : result State :=
  s1 ← rotateStep s; s2 ← rotateStep s1; s3 ← rotateStep s2; rotateStep s3.

(** The next [n] calls of [rotate] are all accepted. *)
Fixpoint rotationsAccepted (n : nat) (s : State) : bool :=
  match n with
  | O => true
  | S n' =>
      rotateAccepted s
      && match rotateStep s with
         | Ok s' => rotationsAccepted n' s'
         | TypeError => false
         end
  end.

(** ** Sample data *)

Definition O_piece : Tetromino := {| shape := [[1; 1]; [1; 1]]; color := "#ffd800" |}.

Definition I_piece : Tetromino := {| shape := [[1; 1; 1; 1]]; color := "#00f0f0" |}.

Definition T_piece : Tetromino := {| shape := [[1; 1; 1]; [0; 1; 0]]; color := "#aa00ff" |}.

(** The T piece in the middle of an empty board. *)
Definition midState : State :=
  {| board := createEmptyBoard;
     currentPiece := Some T_piece;
     position := {| x := 4; y := 5 |};
     gameOver := false;
     score := 0 |}.

(** The O piece resting on the floor of an empty board. *)
Definition restingState : State :=
  {| board := createEmptyBoard;
     currentPiece := Some O_piece;
     position := {| x := 4; y := 18 |};
     gameOver := false;
     score := 0 |}.

(** A key press, with the O piece as the outcome of any spawn. *)
Definition press (key : string) : Event * nat := (KeyDown key, 0%nat).

(** Shift the piece with [moves], then press ArrowDown until it has
    settled from the spawn row. *)
Definition dropAfter (moves : list (Event * nat)) : list (Event * nat) :=
  moves ++ replicate 19%nat (press "ArrowDown").

(** Five O pieces laid side by side on the floor. *)
Definition fiveSquares : list (Event * nat) :=
  press "Enter"
  :: dropAfter (replicate 4%nat (press "ArrowLeft"))
  ++ dropAfter (replicate 2%nat (press "ArrowLeft"))
  ++ dropAfter []
  ++ dropAfter (replicate 2%nat (press "ArrowRight"))
  ++ dropAfter (replicate 4%nat (press "ArrowRight")).

Definition stateAfter (evs : list (Event * nat)) : State :=
  match run initialState evs with
  | Ok s => s
  | TypeError => initialState
  end.

(** The state after [fiveSquares]: the two bottom rows are complete. *)
Definition fullRowsState : State := stateAfter fiveSquares.

(** O pieces dropped on one another until the stack reaches the top. *)
Definition gameOverState : State :=
  stateAfter (replicate 101%nat (press "ArrowDown")).

(** A board whose two bottom rows are complete, and a state holding it. *)
Definition twoLinesBoard : Board :=
  replicate 18%nat (replicate 10%nat Zero)
  ++ replicate 2%nat (replicate 10%nat (Color "#ffd800")).

Definition twoLinesState : State :=
  {| board := twoLinesBoard;
     currentPiece := Some I_piece;
     position := {| x := 4; y := 0 |};
     gameOver := false;
     score := 300 |}.

(** ** Rendering (App.tsx, lines 165-188) *)

(** The value of [cell] when it is truthy in [cell || ...]: a non-empty
    string.  [0], the empty string and [undefined] are falsy. *)
Definition cellColor (cell : Cell) : option string :=
  match cell with
  | Color c => if String.eqb c "" then None else Some c
  | _ => None
  end.

(** The [backgroundColor] of the square drawn for [cell], found at column
    [cx] of row [cy] of the board (lines 174-183).  The conjunction is
    evaluated left to right and stops at the first falsy operand;
    [shape[0].length] and [shape[cy - position.y][cx - position.x]] throw
    when the row they read is [undefined]. *)
Definition backgroundColor (s : State) (cell : Cell) (cx cy : Z) : result string :=
  match cellColor cell with
  | Some c => Ok c
  | None =>
      match currentPiece s with
      | None => Ok "white"%string
      | Some piece =>
          if (cy >=? y (position s))
             && (cy <? y (position s) + Z.of_nat (length (shape piece)))
             && (cx >=? x (position s))
          then
            match js_get (shape piece) 0 with
            | None => TypeError
            | Some row0 =>
                if cx <? x (position s) + Z.of_nat (length row0) then
                  match js_get (shape piece) (cy - y (position s)) with
                  | None => TypeError
                  | Some row =>
                      match js_get row (cx - x (position s)) with
                      | Some v => if truthy v then Ok (color piece) else Ok "white"%string
                      | None => Ok "white"%string
                      end
                  end
                else Ok "white"%string
            end
          else Ok "white"%string
      end
  end.

(** ** Vocabulary of the further properties *)

(** The state [s] with its piece at [pos]. *)
Definition withPosition (s : State) (pos : Position) : State :=
  {| board := board s; currentPiece := currentPiece s; position := pos;
     gameOver := gameOver s; score := score s |}.

(** What the spawn effect makes of a committed state: a state without a
    piece gets one, any other is left alone. *)
Definition spawned (t : State) (rnd : nat) : State :=
  match currentPiece t with
  | Some _ => t
  | None => applyUpdates t (spawnNewPiece rnd)
  end.

(** What the game-over effect makes of a state whose piece is invalid. *)
Definition flagged (t : State) : State := applyUpdate t (setGameOver true).

(** The piece built by [rotate] (lines 87-92), left alone where the
    rotation throws. *)
Definition quarterTurn (piece : Tetromino) : Tetromino :=
  match rotateShape (shape piece) with
  | Ok sh => {| shape := sh; color := color piece |}
  | TypeError => piece
  end.

(** A tetromino as listed and after one, two and three rotations. *)
Definition orientations (piece : Tetromino) : list Tetromino :=
  [ piece; quarterTurn piece; quarterTurn (quarterTurn piece);
    quarterTurn (quarterTurn (quarterTurn piece)) ].

Definition allOrientations : list Tetromino :=
  concat (orientations <$> TETROMINOS).

(** The number of truthy entries of a shape matrix. *)
Definition countOccupied (sh : list (list Z)) : nat :=
  length (List.filter truthy (concat sh)).

(** The colors of the seven tetrominoes. *)
Definition palette : list string := color <$> TETROMINOS.

(** The spawn origin of [spawnNewPiece]. *)
Definition spawnPosition : Position := {| x := BOARD_WIDTH / 2 - 1; y := 0 |}.

(** The keys [handleKeyPress] reacts to. *)
Definition arrowKeys : list string :=
  ["ArrowLeft"%string; "ArrowRight"%string; "ArrowDown"%string; "ArrowUp"%string].

(** The rejection condition of [isValidMove] on a board that need not be
    rectangular: a square that is missing or holds anything but [0] counts
    as occupied. *)
Definition blockedAny (b : Board) (boardX boardY : Z) : Prop :=
  boardX < 0
  \/ boardX >= BOARD_WIDTH
  \/ boardY >= BOARD_HEIGHT
  \/ (boardY >= 0 /\ cellAt b boardX boardY <> Some Zero).

(** ** More sample data *)

(** The O piece hanging over the right edge of an empty board, and below
    its floor. *)
Definition overhangPosition : Position := {| x := 9; y := 18 |}.
Definition sunkPosition : Position := {| x := 4; y := 19 |}.

(** A board of three rows only. *)
Definition shortBoard : Board := replicate 3%nat (replicate 10%nat Zero).

(** A ragged board of [BOARD_HEIGHT] rows: the top row has four squares. *)
Definition raggedBoard : Board :=
  replicate 4%nat Zero :: replicate 19%nat (replicate 10%nat Zero).

(** The state after the mount and one ArrowLeft. *)
Definition playingState : State :=
  stateAfter [press "Enter"; press "ArrowLeft"].

(** The state after [fiveSquares] and a tick, which clears the two rows. *)
Definition clearedState : State :=
  stateAfter (fiveSquares ++ [(Tick, 0%nat)]).

(** The mount and eighteen presses of ArrowDown, which bring the O piece to
    the floor. *)
Definition toTheFloor : list (Event * nat) :=
  press "Enter" :: replicate 18%nat (press "ArrowDown").

(** Evaluate the binds of the exception monad and the commit of a batch. *)
Ltac run_bind :=
  repeat (progress (unfold mbind, result_bind;
                    cbn [applyUpdates fold_left applyUpdate app
                         board currentPiece position gameOver score x y])).

(** Find a concrete element in a concrete list. *)
Ltac pick_member :=
  apply list_elem_of_In; vm_compute; repeat (first [left; reflexivity | right]).

(** * Properties of [isValidMove] *)

Section ValidMove.
Variable b : Board.
Hypothesis Hb : board_ok b = true.

Lemma board_ok_cell boardX boardY :
  0 <= boardX < BOARD_WIDTH -> 0 <= boardY < BOARD_HEIGHT ->
  cellAt b boardX boardY = Some Zero
  \/ exists c, cellAt b boardX boardY = Some (Color c).
Proof using Hb.
  intros Hx Hy. unfold board_ok in Hb.
  apply andb_prop in Hb as [Hlen Hrows].
  apply Nat.eqb_eq in Hlen. rewrite forallb_forall in Hrows.
  unfold cellAt, js_get.
  destruct (Z.ltb_spec boardY 0) as [?|_]; [lia|].
  destruct (lookup_lt_is_Some_2 b (Z.to_nat boardY)) as [row Hrow]; [lia|].
  rewrite Hrow. cbn.
  destruct (Z.ltb_spec boardX 0) as [?|_]; [lia|].
  assert (Hin : In row b).
  { apply list_elem_of_In, list_elem_of_lookup; eauto. }
  apply Hrows in Hin. apply andb_prop in Hin as [Hw Hcells].
  apply Nat.eqb_eq in Hw. rewrite forallb_forall in Hcells.
  destruct (lookup_lt_is_Some_2 row (Z.to_nat boardX)) as [c Hc]; [lia|].
  rewrite Hc.
  assert (Hcin : In c row).
  { apply list_elem_of_In, list_elem_of_lookup; eauto. }
  apply Hcells in Hcin. destruct c; cbn in Hcin; eauto; discriminate.
Qed.

Lemma collides_spec boardX boardY :
  exists hit, collides b boardX boardY = Ok hit
              /\ (hit = true <-> blocked b boardX boardY).
Proof using Hb.
  unfold collides, blocked.
  destruct (Z.ltb_spec boardX 0); cbn [orb].
  { exists true. split; [done|]. split; [intros _; lia|done]. }
  destruct (Z.geb_spec boardX BOARD_WIDTH); cbn [orb].
  { exists true. split; [done|]. split; [intros _; lia|done]. }
  destruct (Z.geb_spec boardY BOARD_HEIGHT); cbn [orb].
  { exists true. split; [done|]. split; [intros _; lia|done]. }
  destruct (Z.geb_spec boardY 0).
  - destruct (board_ok_cell boardX boardY) as [Hc|[c Hc]]; [lia|lia| |];
      pose proof Hc as Hc'; unfold cellAt in Hc';
      destruct (js_get b boardY) as [row|]; cbn in Hc'; try discriminate;
      rewrite Hc'.
    + exists false. split; [done|]. split; [discriminate|].
      intros [?|[?|[?|[_ [c Hc2]]]]]; try lia. congruence.
    + exists true. split; [done|]. split; [|done].
      intros _. right. right. right. split; [lia|]. eauto.
  - exists false. split; [done|]. split; [discriminate|].
    intros [?|[?|[?|[? _]]]]; lia.
Qed.

Lemma isValidMove_row_spec cells x0 newX boardY :
  exists ok, isValidMove_row b cells x0 newX boardY = Ok ok
    /\ (ok = false <->
        exists (j : nat) v, cells !! j = Some v /\ truthy v = true
                    /\ blocked b (newX + (x0 + Z.of_nat j)) boardY).
Proof using Hb.
  revert x0. induction cells as [|v cells IH]; intros x0; cbn [isValidMove_row].
  - exists true. split; [done|]. split; [discriminate|].
    intros (j & w & Hj & _). rewrite lookup_nil in Hj. discriminate.
  - destruct (IH (x0 + 1)) as (ok & Hok & Hiff).
    assert (Htail : ok = false <->
              exists (j : nat) w, (v :: cells) !! S j = Some w /\ truthy w = true
                  /\ blocked b (newX + (x0 + Z.of_nat (S j))) boardY).
    { rewrite Hiff. split; intros (j & w & Hj & Hw & Hbl); exists j, w;
        cbn [lookup list_lookup] in *;
        (split; [exact Hj|split; [exact Hw|]]);
        replace (x0 + Z.of_nat (S j)) with (x0 + 1 + Z.of_nat j) in * by lia;
        exact Hbl. }
    destruct (truthy v) eqn:Hv.
    + destruct (collides_spec (newX + x0) boardY) as (hit & Hhit & Hhiff).
      rewrite Hhit. cbn. destruct hit.
      * exists false. split; [done|]. split; [|done]. intros _.
        exists 0%nat, v. split; [done|]. split; [done|].
        replace (x0 + Z.of_nat 0) with x0 by lia. by apply Hhiff.
      * exists ok. split; [done|]. rewrite Htail.
        split; intros (j & w & Hj & Hw & Hbl).
        -- exists (S j), w. auto.
        -- destruct j as [|j]; [|exists j, w; auto].
           replace (x0 + Z.of_nat 0) with x0 in Hbl by lia.
           apply Hhiff in Hbl. discriminate.
    + exists ok. split; [done|]. rewrite Htail.
      split; intros (j & w & Hj & Hw & Hbl).
      * exists (S j), w. auto.
      * destruct j as [|j]; [|exists j, w; auto].
        cbn in Hj. congruence.
Qed.

Lemma isValidMove_rows_spec rows y0 newX newY :
  exists ok, isValidMove_rows b rows y0 newX newY = Ok ok
    /\ (ok = false <->
        exists i j : nat, occupied rows i j = true
            /\ blocked b (newX + Z.of_nat j) (newY + (y0 + Z.of_nat i))).
Proof using Hb.
  revert y0. induction rows as [|cells rows IH]; intros y0; cbn [isValidMove_rows].
  - exists true. split; [done|]. split; [discriminate|].
    intros (i & j & Hocc & _). unfold occupied in Hocc.
    rewrite lookup_nil in Hocc. discriminate.
  - destruct (isValidMove_row_spec cells 0 newX (newY + y0)) as (ok1 & Hok1 & Hiff1).
    destruct (IH (y0 + 1)) as (ok & Hok & Hiff).
    rewrite Hok1. cbn. destruct ok1.
    + exists ok. split; [done|]. rewrite Hiff.
      split; intros (i & j & Hocc & Hbl).
      * exists (S i), j. split; [exact Hocc|].
        replace (y0 + Z.of_nat (S i)) with (y0 + 1 + Z.of_nat i) by lia. exact Hbl.
      * destruct i as [|i].
        -- assert (Hf : true = false); [|discriminate].
           apply Hiff1. unfold occupied in Hocc. cbn in Hocc.
           destruct (cells !! j) as [v|] eqn:Hj; [|discriminate].
           exists j, v. split; [done|]. split; [done|].
           replace (newY + (y0 + Z.of_nat 0)) with (newY + y0) in Hbl by lia.
           exact Hbl.
        -- exists i, j. split; [exact Hocc|].
           replace (y0 + Z.of_nat (S i)) with (y0 + 1 + Z.of_nat i) in Hbl by lia.
           exact Hbl.
    + exists false. split; [done|]. split; [|done]. intros _.
      destruct Hiff1 as [Hiff1 _]. destruct (Hiff1 eq_refl) as (j & v & Hj & Hv & Hbl).
      exists 0%nat, j. split.
      * unfold occupied. cbn. by rewrite Hj.
      * replace (newY + (y0 + Z.of_nat 0)) with (newY + y0) by lia. exact Hbl.
Qed.

End ValidMove.

Lemma isValidMove_total (b : Board) (piece : Tetromino) (newX newY : Z) :
  board_ok b = true -> exists ok, isValidMove b piece newX newY = Ok ok.
Proof.
  intros Hb. destruct (isValidMove_rows_spec b Hb (shape piece) 0 newX newY)
    as (ok & Hok & _). by exists ok.
Qed.

(** What an accepted move guarantees for each occupied cell. *)
Lemma isValidMove_true_cells (b : Board) (piece : Tetromino) (newX newY : Z) :
  board_ok b = true ->
  isValidMove b piece newX newY = Ok true ->
  forall i j : nat, occupied (shape piece) i j = true ->
    0 <= newX + Z.of_nat j < BOARD_WIDTH
    /\ newY + Z.of_nat i < BOARD_HEIGHT
    /\ (0 <= newY + Z.of_nat i ->
        cellAt b (newX + Z.of_nat j) (newY + Z.of_nat i) = Some Zero).
Proof.
  intros Hb Hok i j Hocc.
  destruct (isValidMove_rows_spec b Hb (shape piece) 0 newX newY)
    as (ok & Hok' & Hiff).
  unfold isValidMove in Hok. rewrite Hok in Hok'. injection Hok' as <-.
  assert (Hnb : ~ blocked b (newX + Z.of_nat j) (newY + Z.of_nat i)).
  { intros Hbl. assert (Hf : true = false); [|discriminate].
    apply Hiff. exists i, j. split; [done|]. by rewrite Z.add_0_l. }
  unfold blocked in Hnb.
  assert (Hx : 0 <= newX + Z.of_nat j < BOARD_WIDTH) by lia.
  assert (Hy : newY + Z.of_nat i < BOARD_HEIGHT) by lia.
  split; [done|]. split; [done|]. intros Hy0.
  destruct (board_ok_cell b Hb (newX + Z.of_nat j) (newY + Z.of_nat i))
    as [Hz|Hc]; [lia|lia|done|].
  exfalso. apply Hnb. right. right. right. split; [lia|done].
Qed.

(** C1. For a board of [BOARD_HEIGHT] rows of [BOARD_WIDTH] cells,
    [isValidMove] returns a boolean (it does not throw), and that boolean is
    [false] exactly when some occupied cell of the shape, placed at column
    [newX + j] and row [newY + i], has column [< 0] or [>= BOARD_WIDTH], or
    row [>= BOARD_HEIGHT], or row [>= 0] with an occupied board cell
    underneath.  In particular a move whose occupied cells are all
    horizontally in bounds and land on rows [< 0] or on empty in-bounds
    cells is accepted, and a cell out of bounds rejects the move whatever
    the board holds.  [isValidMove] is a function from the board, the piece
    and the target origin to a boolean: it has no state to write to. *)
Theorem isValidMove_false_iff_blocked (b : Board) (piece : Tetromino) (newX newY : Z) :
  board_ok b = true ->
  exists ok, isValidMove b piece newX newY = Ok ok
    /\ (ok = false <->
        exists i j : nat, occupied (shape piece) i j = true
          /\ blocked b (newX + Z.of_nat j) (newY + Z.of_nat i))
    /\ ((forall i j : nat, occupied (shape piece) i j = true ->
           0 <= newX + Z.of_nat j < BOARD_WIDTH
           /\ (newY + Z.of_nat i < 0
               \/ (newY + Z.of_nat i < BOARD_HEIGHT
                   /\ cellAt b (newX + Z.of_nat j) (newY + Z.of_nat i) = Some Zero))) ->
        ok = true)
    /\ ((exists i j : nat, occupied (shape piece) i j = true
           /\ (newX + Z.of_nat j < 0 \/ newX + Z.of_nat j >= BOARD_WIDTH
               \/ newY + Z.of_nat i >= BOARD_HEIGHT)) ->
        ok = false).
Proof.
  intros Hb.
  destruct (isValidMove_rows_spec b Hb (shape piece) 0 newX newY)
    as (ok & Hok & Hiff).
  assert (Hiff' : ok = false <->
                  exists i j : nat, occupied (shape piece) i j = true
                    /\ blocked b (newX + Z.of_nat j) (newY + Z.of_nat i)).
  { rewrite Hiff. split; intros (i & j & Hocc & Hbl); exists i, j;
      (split; [done|]); by rewrite Z.add_0_l in *. }
  exists ok. split; [done|]. split; [done|]. split.
  - intros Hall. destruct ok; [done|]. exfalso.
    destruct Hiff' as [Hex _]. destruct (Hex eq_refl) as (i & j & Hocc & Hbl).
    destruct (Hall i j Hocc) as [Hx Hy]. unfold blocked in Hbl.
    destruct Hbl as [?|[?|[?|[Hy0 [c Hc]]]]]; try lia.
    + unfold BOARD_HEIGHT in *. destruct Hy as [?|[? ?]]; lia.
    + destruct Hy as [?|[? Hz]]; [lia|congruence].
  - intros (i & j & Hocc & Hout). apply Hiff'. exists i, j.
    split; [done|]. unfold blocked. lia.
Qed.

Lemma isValidMove_false_iff_blocked_witness :
  board_ok createEmptyBoard = true
  /\ exists ok, isValidMove createEmptyBoard O_piece 9 0 = Ok ok
    /\ (ok = false <->
        exists i j : nat, occupied (shape O_piece) i j = true
          /\ blocked createEmptyBoard (9 + Z.of_nat j) (0 + Z.of_nat i))
    /\ ((forall i j : nat, occupied (shape O_piece) i j = true ->
           0 <= 9 + Z.of_nat j < BOARD_WIDTH
           /\ (0 + Z.of_nat i < 0
               \/ (0 + Z.of_nat i < BOARD_HEIGHT
                   /\ cellAt createEmptyBoard (9 + Z.of_nat j) (0 + Z.of_nat i) = Some Zero))) ->
        ok = true)
    /\ ((exists i j : nat, occupied (shape O_piece) i j = true
           /\ (9 + Z.of_nat j < 0 \/ 9 + Z.of_nat j >= BOARD_WIDTH
               \/ 0 + Z.of_nat i >= BOARD_HEIGHT)) ->
        ok = false).
Proof.
  split; [reflexivity|].
  apply (isValidMove_false_iff_blocked createEmptyBoard O_piece 9 0).
  reflexivity.
Defined.

(** * Boards as arrays *)

Lemma board_ok_iff (b : Board) :
  board_ok b = true <->
  length b = Z.to_nat BOARD_HEIGHT
  /\ forall (i : nat) row, b !! i = Some row ->
       length row = Z.to_nat BOARD_WIDTH
       /\ forall (j : nat) c, row !! j = Some c -> c <> Undef.
Proof.
  unfold board_ok. rewrite andb_true_iff, Nat.eqb_eq, forallb_forall.
  split; intros [Hlen Hrows]; (split; [exact Hlen|]).
  - intros i row Hi.
    assert (Hin : In row b) by (apply list_elem_of_In, list_elem_of_lookup; eauto).
    apply Hrows in Hin. rewrite andb_true_iff, Nat.eqb_eq, forallb_forall in Hin.
    destruct Hin as [Hw Hcells]. split; [exact Hw|]. intros j c Hj ->.
    assert (Hin : In Undef row) by (apply list_elem_of_In, list_elem_of_lookup; eauto).
    apply Hcells in Hin. discriminate.
  - intros row Hin. apply list_elem_of_In, list_elem_of_lookup in Hin as [i Hi].
    destruct (Hrows i row Hi) as [Hw Hcells].
    rewrite andb_true_iff, Nat.eqb_eq, forallb_forall. split; [exact Hw|].
    intros c Hc. apply list_elem_of_In, list_elem_of_lookup in Hc as [j Hj].
    specialize (Hcells j c Hj). by destruct c.
Qed.

Lemma js_get_Some {A} (arr : list A) (i : Z) (a : A) :
  js_get arr i = Some a <-> 0 <= i /\ arr !! Z.to_nat i = Some a.
Proof.
  unfold js_get. destruct (Z.ltb_spec i 0); split; try intros [? ?]; try done; lia.
Qed.

Lemma js_get_in_range {A} (arr : list A) (i : Z) :
  0 <= i < Z.of_nat (length arr) -> exists a, js_get arr i = Some a.
Proof.
  intros Hi. destruct (lookup_lt_is_Some_2 arr (Z.to_nat i)) as [a Ha]; [lia|].
  exists a. apply js_get_Some. split; [lia|done].
Qed.

(** An assignment to a cell of the board reads back at that cell and
    nowhere else, and keeps the board's dimensions. *)
Lemma assignCell_spec (b : Board) (boardX boardY : Z) (v : Cell) :
  board_ok b = true ->
  0 <= boardX < BOARD_WIDTH -> 0 <= boardY < BOARD_HEIGHT ->
  v <> Undef ->
  exists b', assignCell b boardY boardX v = Ok b'
    /\ board_ok b' = true
    /\ cellAt b' boardX boardY = Some v
    /\ forall X Y, (X, Y) <> (boardX, boardY) -> cellAt b' X Y = cellAt b X Y.
Proof.
  intros Hb Hx Hy Hv. pose proof Hb as Hwf. apply board_ok_iff in Hwf as [Hlen Hrows].
  destruct (js_get_in_range b boardY) as [row Hrow]; [lia|].
  unfold assignCell. rewrite Hrow. eexists. split; [done|].
  apply js_get_Some in Hrow as [_ Hrow].
  destruct (Hrows _ _ Hrow) as [Hw Hcells].
  assert (Hset : js_set Undef row boardX v = <[Z.to_nat boardX := v]> row).
  { unfold js_set. destruct (Z.ltb_spec boardX 0); [lia|].
    destruct (Nat.ltb_spec (Z.to_nat boardX) (length row)); [done|lia]. }
  rewrite Hset. split; [|split].
  - apply board_ok_iff. split; [by rewrite length_insert|].
    intros i row' Hi.
    destruct (decide (i = Z.to_nat boardY)) as [->|Hne].
    + rewrite list_lookup_insert_eq in Hi by lia. injection Hi as <-.
      split; [by rewrite length_insert|]. intros j c Hj.
      destruct (decide (j = Z.to_nat boardX)) as [->|Hnj].
      * rewrite list_lookup_insert_eq in Hj by lia. congruence.
      * rewrite list_lookup_insert_ne in Hj by done. eauto.
    + rewrite list_lookup_insert_ne in Hi by done. eauto.
  - unfold cellAt, js_get. destruct (Z.ltb_spec boardY 0); [lia|].
    rewrite list_lookup_insert_eq by lia. cbn.
    destruct (Z.ltb_spec boardX 0); [lia|].
    by rewrite list_lookup_insert_eq by lia.
  - intros X Y Hne. unfold cellAt, js_get.
    destruct (Z.ltb_spec Y 0); [done|].
    destruct (decide (Z.to_nat Y = Z.to_nat boardY)) as [Heq|Hny].
    + assert (Y = boardY) as -> by lia.
      rewrite list_lookup_insert_eq by lia. rewrite Hrow. cbn.
      destruct (Z.ltb_spec X 0); [done|].
      rewrite list_lookup_insert_ne; [done|]. intros Heq'.
      apply Hne. f_equal. lia.
    + by rewrite list_lookup_insert_ne.
Qed.

(** * Properties of [mergePieceToBoard] *)

Section Merge.
Variable c : string.

Lemma merge_row_spec (cells : list Z) (nb : Board) (x0 posX boardY : Z) :
  board_ok nb = true ->
  (forall X, hitRow cells x0 posX X ->
     0 <= X < BOARD_WIDTH /\ 0 <= boardY < BOARD_HEIGHT) ->
  exists nb', merge_row nb cells x0 posX boardY c = Ok nb'
    /\ board_ok nb' = true
    /\ (forall X Y, cellAt nb' X Y = Some (Color c) \/ cellAt nb' X Y = cellAt nb X Y)
    /\ (forall X, hitRow cells x0 posX X -> cellAt nb' X boardY = Some (Color c))
    /\ (forall X Y, ~ (Y = boardY /\ hitRow cells x0 posX X) ->
          cellAt nb' X Y = cellAt nb X Y).
Proof.
  revert nb x0. induction cells as [|v cells IH]; intros nb x0 Hb Hin;
    cbn [merge_row].
  - exists nb. split; [done|]. split; [done|]. split; [auto|]. split; [|done].
    intros X (j & w & Hj & _). rewrite lookup_nil in Hj. discriminate.
  - assert (Htl : forall X, hitRow cells (x0 + 1) posX X -> hitRow (v :: cells) x0 posX X).
    { intros X (j & w & Hj & Hw & ->). exists (S j), w.
      split; [done|]. split; [done|]. lia. }
    assert (Hsplit : forall X, hitRow (v :: cells) x0 posX X ->
              (truthy v = true /\ X = posX + x0) \/ hitRow cells (x0 + 1) posX X).
    { intros X (j & w & Hj & Hw & ->). destruct j as [|j].
      - left. cbn in Hj. injection Hj as ->. split; [done|lia].
      - right. exists j, w. split; [done|]. split; [done|]. lia. }
    destruct (truthy v) eqn:Hv.
    + assert (Hhd : hitRow (v :: cells) x0 posX (posX + x0)).
      { exists 0%nat, v. split; [done|]. split; [done|]. lia. }
      destruct (Hin _ Hhd) as [Hx Hy].
      destruct (assignCell_spec nb (posX + x0) boardY (Color c) Hb Hx Hy)
        as (nb1 & Hnb1 & Hb1 & Hset & Hother); [done|].
      rewrite Hnb1. cbn.
      destruct (IH nb1 (x0 + 1) Hb1) as (nb' & Hnb' & Hb' & Hany & Hhit & Hmiss).
      { intros X HX. apply Hin. auto. }
      exists nb'. split; [done|]. split; [done|]. split; [|split].
      * intros X Y. destruct (Hany X Y) as [?|Heq]; [by left|].
        rewrite Heq. destruct (decide ((X, Y) = (posX + x0, boardY))) as [Heq'|Hne].
        -- injection Heq' as -> ->. by left.
        -- right. by apply Hother.
      * intros X HX. destruct (Hsplit X HX) as [[_ ->]|Ht]; [|by apply Hhit].
        destruct (Hany (posX + x0) boardY) as [?|Heq]; [done|]. by rewrite Heq.
      * intros X Y Hno. rewrite Hmiss.
        -- apply Hother. intros [= -> ->]. apply Hno. split; [done|]. exact Hhd.
        -- intros [-> Ht]. apply Hno. split; [done|]. auto.
    + destruct (IH nb (x0 + 1) Hb) as (nb' & Hnb' & Hb' & Hany & Hhit & Hmiss).
      { intros X HX. apply Hin. auto. }
      exists nb'. split; [done|]. split; [done|]. split; [done|]. split.
      * intros X HX. destruct (Hsplit X HX) as [[? _]|Ht]; [discriminate|by apply Hhit].
      * intros X Y Hno. apply Hmiss. intros [-> Ht]. apply Hno. split; [done|]. auto.
Qed.

Lemma hitRows_cons (cells : list Z) (rows : list (list Z)) (y0 posX posY X Y : Z) :
  hitRows (cells :: rows) y0 posX posY X Y <->
  (Y = posY + y0 /\ hitRow cells 0 posX X) \/ hitRows rows (y0 + 1) posX posY X Y.
Proof.
  split.
  - intros (i & j & Hocc & -> & ->). destruct i as [|i].
    + left. split; [lia|]. unfold occupied in Hocc. cbn in Hocc.
      destruct (cells !! j) as [v|] eqn:Hj; [|discriminate].
      exists j, v. split; [done|]. split; [done|]. lia.
    + right. exists i, j. split; [exact Hocc|]. split; lia.
  - intros [[-> (j & v & Hj & Hv & ->)]|(i & j & Hocc & -> & ->)].
    + exists 0%nat, j. split; [|split; lia]. unfold occupied. cbn. by rewrite Hj.
    + exists (S i), j. split; [exact Hocc|]. split; lia.
Qed.

Lemma merge_rows_spec (rows : list (list Z)) (nb : Board) (y0 posX posY : Z) :
  board_ok nb = true ->
  (forall X Y, hitRows rows y0 posX posY X Y ->
     0 <= X < BOARD_WIDTH /\ 0 <= Y < BOARD_HEIGHT) ->
  exists nb', merge_rows nb rows y0 posX posY c = Ok nb'
    /\ board_ok nb' = true
    /\ (forall X Y, cellAt nb' X Y = Some (Color c) \/ cellAt nb' X Y = cellAt nb X Y)
    /\ (forall X Y, hitRows rows y0 posX posY X Y -> cellAt nb' X Y = Some (Color c))
    /\ (forall X Y, ~ hitRows rows y0 posX posY X Y -> cellAt nb' X Y = cellAt nb X Y).
Proof.
  revert nb y0. induction rows as [|cells rows IH]; intros nb y0 Hb Hin;
    cbn [merge_rows].
  - exists nb. split; [done|]. split; [done|]. split; [auto|]. split; [|done].
    intros X Y (i & j & Hocc & _). unfold occupied in Hocc.
    rewrite lookup_nil in Hocc. discriminate.
  - destruct (merge_row_spec cells nb 0 posX (posY + y0) Hb)
      as (nb1 & Hnb1 & Hb1 & Hany1 & Hhit1 & Hmiss1).
    { intros X HX. apply (Hin X (posY + y0)). apply hitRows_cons. by left. }
    rewrite Hnb1. cbn.
    destruct (IH nb1 (y0 + 1) Hb1) as (nb' & Hnb' & Hb' & Hany & Hhit & Hmiss).
    { intros X Y HXY. apply Hin. apply hitRows_cons. by right. }
    exists nb'. split; [done|]. split; [done|]. split; [|split].
    + intros X Y. destruct (Hany X Y) as [?|Heq]; [by left|].
      rewrite Heq. apply Hany1.
    + intros X Y HXY. apply hitRows_cons in HXY as [[-> HX]|HXY]; [|by apply Hhit].
      destruct (Hany X (posY + y0)) as [?|Heq]; [done|].
      rewrite Heq. by apply Hhit1.
    + intros X Y Hno. rewrite Hmiss, Hmiss1; [done| |].
      * intros [-> HX]. apply Hno, hitRows_cons. by left.
      * intros HXY. apply Hno, hitRows_cons. by right.
Qed.

End Merge.

Lemma occupied_lt (sh : list (list Z)) (i j : nat) :
  occupied sh i j = true ->
  (i < length sh)%nat /\ (j < length (default [] (sh !! i)))%nat.
Proof.
  unfold occupied. destruct (sh !! i) as [row|] eqn:Hi; [|discriminate].
  destruct (row !! j) as [v|] eqn:Hj; [|discriminate]. intros _.
  apply lookup_lt_Some in Hi, Hj. cbn. lia.
Qed.

Lemma inBounds_iff (sh : list (list Z)) (pos : Position) :
  inBounds sh pos = true <->
  forall i j : nat, occupied sh i j = true ->
    inRange (x pos + Z.of_nat j) (y pos + Z.of_nat i) = true.
Proof.
  unfold inBounds. rewrite forallb_forall. split.
  - intros Hall i j Hocc. destruct (occupied_lt _ _ _ Hocc) as [Hi Hj].
    specialize (Hall i). rewrite forallb_forall in Hall.
    assert (Himp : implb (occupied sh i j)
                     (inRange (x pos + Z.of_nat j) (y pos + Z.of_nat i)) = true).
    { apply Hall; apply in_seq; lia. }
    by rewrite Hocc in Himp.
  - intros Hall i _. apply forallb_forall. intros j _.
    destruct (occupied sh i j) eqn:Hocc; [|done]. cbn. by apply Hall.
Qed.

Lemma inRange_iff (boardX boardY : Z) :
  inRange boardX boardY = true <->
  0 <= boardX < BOARD_WIDTH /\ 0 <= boardY < BOARD_HEIGHT.
Proof. unfold inRange. rewrite !andb_true_iff. lia. Qed.

Lemma covers_iff (piece : Tetromino) (pos : Position) (X Y : Z) :
  covers piece pos X Y = true <-> hitRows (shape piece) 0 (x pos) (y pos) X Y.
Proof.
  unfold covers, hitRows. rewrite !andb_true_iff. split.
  - intros [[Hx Hy] Hocc]. apply Z.leb_le in Hx, Hy.
    exists (Z.to_nat (Y - y pos)), (Z.to_nat (X - x pos)). split; [done|]. lia.
  - intros (i & j & Hocc & -> & ->). split; [rewrite !Z.leb_le; lia|].
    replace (Z.to_nat (y pos + (0 + Z.of_nat i) - y pos)) with i by lia.
    replace (Z.to_nat (x pos + Z.of_nat j - x pos)) with j by lia. done.
Qed.

(** Merging a piece that lies on the board paints exactly its occupied cells
    with its color and keeps the board's dimensions. *)
Lemma mergedBoard_spec (b : Board) (piece : Tetromino) (pos : Position) :
  board_ok b = true ->
  inBounds (shape piece) pos = true ->
  exists b', mergedBoard b piece pos = Ok b'
    /\ board_ok b' = true
    /\ forall X Y, cellAt b' X Y =
         if covers piece pos X Y then Some (Color (color piece)) else cellAt b X Y.
Proof.
  intros Hb Hin.
  destruct (merge_rows_spec (color piece) (shape piece) b 0 (x pos) (y pos) Hb)
    as (b' & Hb' & Hok & _ & Hhit & Hmiss).
  { intros X Y (i & j & Hocc & -> & ->).
    pose proof (proj1 (inBounds_iff _ _) Hin i j Hocc) as Hr.
    apply inRange_iff in Hr. lia. }
  exists b'. split; [done|]. split; [done|]. intros X Y.
  destruct (covers piece pos X Y) eqn:Hc.
  - by apply Hhit, covers_iff.
  - apply Hmiss. intros Hh. apply covers_iff in Hh. congruence.
Qed.

(** A piece accepted at a non-negative row lies on the board. *)
Lemma isValidMove_inBounds (b : Board) (piece : Tetromino) (pos : Position) :
  board_ok b = true -> 0 <= y pos ->
  isValidMove b piece (x pos) (y pos) = Ok true ->
  inBounds (shape piece) pos = true.
Proof.
  intros Hb Hy Hok. apply inBounds_iff. intros i j Hocc.
  destruct (isValidMove_true_cells b piece _ _ Hb Hok i j Hocc) as (? & ? & _).
  apply inRange_iff. lia.
Qed.

Lemma state_ok_iff (s : State) :
  state_ok s = true <->
  board_ok (board s) = true /\ 0 <= y (position s)
  /\ forall piece, currentPiece s = Some piece ->
       shape_ok (shape piece) = true /\ inBounds (shape piece) (position s) = true.
Proof.
  unfold state_ok. rewrite !andb_true_iff, Z.leb_le.
  destruct (currentPiece s) as [p|].
  - rewrite andb_true_iff. split.
    + intros [[? ?] [? ?]]. split; [done|]. split; [done|]. by intros ? [= <-].
    + intros (? & ? & Hp). destruct (Hp p eq_refl). done.
  - split; [|tauto]. intros [[? ?] _]. done.
Qed.

(** * moveDown *)

(** C2. In a state whose board has the fixed dimensions and whose piece lies
    on the board (as it does in every reachable state, see
    [piece_always_on_board]): if [isValidMove] holds one row down, the updates queued by
    [moveDown] increment the piece's row and change nothing else; otherwise
    they replace the board by one in which exactly the piece's occupied
    cells, at its current absolute coordinates, hold its color, and replace
    the piece by [TETROMINOS[rnd]] at column [BOARD_WIDTH / 2 - 1], row 0;
    score and game-over flag are untouched. *)
Theorem moveDown_moves_or_settles (s : State) (piece : Tetromino) (rnd : nat) :
  board_ok (board s) = true ->
  currentPiece s = Some piece ->
  inBounds (shape piece) (position s) = true ->
  exists ok,
    isValidMove (board s) piece (x (position s)) (y (position s) + 1) = Ok ok
    /\ if ok
       then commit s (moveDown s rnd)
            = Ok {| board := board s; currentPiece := Some piece;
                    position := {| x := x (position s); y := y (position s) + 1 |};
                    gameOver := gameOver s; score := score s |}
       else exists b',
            commit s (moveDown s rnd)
            = Ok {| board := b'; currentPiece := TETROMINOS !! rnd;
                    position := {| x := BOARD_WIDTH / 2 - 1; y := 0 |};
                    gameOver := gameOver s; score := score s |}
            /\ board_ok b' = true
            /\ (forall X Y, cellAt b' X Y =
                  if covers piece (position s) X Y
                  then Some (Color (color piece)) else cellAt (board s) X Y)
            /\ ((rnd < length TETROMINOS)%nat ->
                exists piece', TETROMINOS !! rnd = Some piece').
Proof.
  intros Hb Hp Hin.
  destruct (isValidMove_total (board s) piece (x (position s)) (y (position s) + 1) Hb)
    as [ok Hok].
  exists ok. split; [done|].
  unfold commit, moveDown, mergePieceToBoard. rewrite Hp, Hok. run_bind. destruct ok.
  - run_bind. by rewrite Hp.
  - destruct (mergedBoard_spec (board s) piece (position s) Hb Hin)
      as (b' & Hb' & Hok' & Hcells).
    exists b'. rewrite Hb'. run_bind. split; [done|]. split; [done|]. split; [done|].
    intros Hlt. by apply lookup_lt_is_Some_2.
Qed.

Lemma moveDown_moves_or_settles_witness :
  board_ok (board restingState) = true
  /\ currentPiece restingState = Some O_piece
  /\ inBounds (shape O_piece) (position restingState) = true
  /\ exists ok,
    isValidMove (board restingState) O_piece
      (x (position restingState)) (y (position restingState) + 1) = Ok ok
    /\ if ok
       then commit restingState (moveDown restingState 1)
            = Ok {| board := board restingState; currentPiece := Some O_piece;
                    position := {| x := x (position restingState);
                                   y := y (position restingState) + 1 |};
                    gameOver := gameOver restingState; score := score restingState |}
       else exists b',
            commit restingState (moveDown restingState 1)
            = Ok {| board := b'; currentPiece := TETROMINOS !! 1%nat;
                    position := {| x := BOARD_WIDTH / 2 - 1; y := 0 |};
                    gameOver := gameOver restingState; score := score restingState |}
            /\ board_ok b' = true
            /\ (forall X Y, cellAt b' X Y =
                  if covers O_piece (position restingState) X Y
                  then Some (Color (color O_piece)) else cellAt (board restingState) X Y)
            /\ ((1 < length TETROMINOS)%nat ->
                exists piece', TETROMINOS !! 1%nat = Some piece').
Proof.
  split; [reflexivity|]. split; [reflexivity|]. split; [reflexivity|].
  apply (moveDown_moves_or_settles restingState O_piece 1); reflexivity.
Defined.

(** * checkLines *)

Lemma hasZero_complete (row : list Cell) : hasZero row = negb (complete row).
Proof.
  unfold hasZero, complete. induction row as [|c row IH]; [done|].
  cbn. rewrite IH. by destruct (isZero c).
Qed.

Lemma filter_hasZero (b : Board) : List.filter hasZero b = removeComplete b.
Proof.
  induction b as [|row b IH]; [done|].
  cbn. rewrite hasZero_complete, IH. by destruct (complete row).
Qed.

Lemma length_removeComplete (b : Board) :
  (length (removeComplete b) + countComplete b = length b)%nat.
Proof.
  induction b as [|row b IH]; [done|].
  cbn. destruct (complete row); cbn; lia.
Qed.

Lemma removeComplete_sublist (b : Board) : removeComplete b `sublist_of` b.
Proof.
  induction b as [|row b IH]; cbn; [constructor|].
  destruct (complete row); by constructor.
Qed.

Lemma elem_of_removeComplete (b : Board) (row : list Cell) :
  row ∈ removeComplete b <-> row ∈ b /\ complete row = false.
Proof.
  induction b as [|r b IH]; cbn.
  - rewrite elem_of_nil. tauto.
  - destruct (complete r) eqn:Hr; rewrite ?elem_of_cons, IH; split.
    + intros [? ?]. auto.
    + intros [[->|?] ?]; [congruence|auto].
    + intros [->|[? ?]]; auto.
    + intros [[->|?] ?]; auto.
Qed.

Lemma complete_false_iff (row : list Cell) :
  complete row = false <-> Zero ∈ row.
Proof.
  unfold complete. induction row as [|c row IH]; cbn.
  - rewrite elem_of_nil. split; [discriminate|tauto].
  - rewrite elem_of_cons. destruct c; cbn; rewrite ?IH; split; auto;
      intros [?|?]; auto; discriminate.
Qed.

Lemma removeComplete_none (b : Board) :
  countComplete b = 0%nat -> removeComplete b = b.
Proof.
  induction b as [|row b IH]; [done|].
  cbn. destruct (complete row); [discriminate|]. intros H0. by rewrite IH.
Qed.

(** The loop adds exactly the missing rows. *)
Lemma unshiftRows_replicate (n : nat) (newBoard : Board) :
  (length newBoard + n = Z.to_nat BOARD_HEIGHT)%nat ->
  unshiftRows n newBoard
  = replicate n (replicate (Z.to_nat BOARD_WIDTH) Zero) ++ newBoard.
Proof.
  revert newBoard. induction n as [|n IH]; intros newBoard Hlen; [done|].
  cbn [unshiftRows]. destruct (Z.ltb_spec (Z.of_nat (length newBoard)) BOARD_HEIGHT); [|lia].
  rewrite IH by (cbn; lia).
  rewrite replicate_S, replicate_cons_app, <- app_assoc. done.
Qed.

Lemma clearedBoard_spec (b : Board) :
  length b = Z.to_nat BOARD_HEIGHT ->
  clearedBoard b
  = replicate (countComplete b) (replicate (Z.to_nat BOARD_WIDTH) Zero)
    ++ removeComplete b
  /\ linesCleared b = Z.of_nat (countComplete b).
Proof.
  intros Hlen. unfold clearedBoard, linesCleared. rewrite filter_hasZero.
  pose proof (length_removeComplete b) as Hsum.
  assert (Hk : Z.to_nat (BOARD_HEIGHT - Z.of_nat (length (removeComplete b)))
               = countComplete b) by lia.
  rewrite Hk. split; [|unfold BOARD_HEIGHT in *; lia]. apply unshiftRows_replicate. lia.
Qed.

(** C3. On a board of [BOARD_HEIGHT] rows, [checkLines] removes exactly the
    rows in which no cell is empty (the rows that stay are, in their
    original order, those that still hold an empty cell), puts as many
    empty rows on top as it removed so that the board has [BOARD_HEIGHT]
    rows again, and adds 100 times the number of removed rows to the score:
    200 when exactly two rows are complete, and nothing, with the board
    unchanged, when none is. *)
Theorem checkLines_clears_complete_rows (s : State) :
  length (board s) = Z.to_nat BOARD_HEIGHT ->
  let k := countComplete (board s) in
  let s' := applyUpdates s (checkLines s) in
  s' = {| board := replicate k (replicate (Z.to_nat BOARD_WIDTH) Zero)
                   ++ removeComplete (board s);
          currentPiece := currentPiece s; position := position s;
          gameOver := gameOver s;
          score := score s + 100 * Z.of_nat k |}
  /\ length (board s') = Z.to_nat BOARD_HEIGHT
  /\ removeComplete (board s) `sublist_of` board s
  /\ (forall row, row ∈ removeComplete (board s) <-> row ∈ board s /\ Zero ∈ row)
  /\ (length (removeComplete (board s)) + k = length (board s))%nat
  /\ (k = 2%nat -> score s' = score s + 200)
  /\ (k = 0%nat -> s' = s).
Proof.
  intros Hlen k s'.
  destruct (clearedBoard_spec (board s) Hlen) as [Hb Hk].
  assert (Hs' : s' = {| board := replicate k (replicate (Z.to_nat BOARD_WIDTH) Zero)
                                 ++ removeComplete (board s);
                        currentPiece := currentPiece s; position := position s;
                        gameOver := gameOver s;
                        score := score s + 100 * Z.of_nat k |}).
  { subst s'. unfold checkLines. cbn [applyUpdates fold_left applyUpdate].
    cbn [board currentPiece position gameOver score].
    rewrite Hb, Hk. f_equal. fold k. lia. }
  pose proof (length_removeComplete (board s)) as Hsum. fold k in Hsum.
  split; [exact Hs'|]. split; [|split; [|split; [|split; [|split]]]].
  - rewrite Hs'. cbn [board]. rewrite length_app, length_replicate. lia.
  - apply removeComplete_sublist.
  - intros row. rewrite elem_of_removeComplete, complete_false_iff. tauto.
  - exact Hsum.
  - intros H2. rewrite Hs'. cbn [score]. lia.
  - intros H0. rewrite Hs', H0. cbn [replicate app].
    rewrite (removeComplete_none (board s) H0), Z.mul_0_r, Z.add_0_r. by destruct s.
Qed.

Lemma checkLines_clears_complete_rows_witness :
  length (board twoLinesState) = Z.to_nat BOARD_HEIGHT
  /\ countComplete (board twoLinesState) = 2%nat
  /\ score (applyUpdates twoLinesState (checkLines twoLinesState)) = 500
  /\ board (applyUpdates twoLinesState (checkLines twoLinesState)) = createEmptyBoard.
Proof.
  split; [reflexivity|]. split; [reflexivity|].
  pose proof (checkLines_clears_complete_rows twoLinesState eq_refl) as H.
  cbv zeta in H. destruct H as (Hs & _ & _ & _ & _ & H2 & _).
  split; [exact (H2 eq_refl)|]. rewrite Hs. reflexivity.
Defined.

(** * moveHorizontally *)

(** C6. With a piece on a board of the fixed dimensions,
    [moveHorizontally] returns without an exception for every direction
    (so for -1 and +1); the updates it queues add the direction to the
    piece's column when [isValidMove] holds at the new column and the same
    row, and otherwise it queues nothing: board, piece, position, score and
    game-over flag stay as they are. *)
Theorem moveHorizontally_moves_or_ignores (s : State) (piece : Tetromino) (d : Z) :
  board_ok (board s) = true ->
  currentPiece s = Some piece ->
  exists ok,
    isValidMove (board s) piece (x (position s) + d) (y (position s)) = Ok ok
    /\ moveHorizontally s d
       = Ok (if ok
             then [setPosition (fun prev => {| x := x prev + d; y := y prev |})]
             else [])
    /\ commit s (moveHorizontally s d)
       = Ok (if ok
             then {| board := board s; currentPiece := currentPiece s;
                     position := {| x := x (position s) + d; y := y (position s) |};
                     gameOver := gameOver s; score := score s |}
             else s).
Proof.
  intros Hb Hp.
  destruct (isValidMove_total (board s) piece (x (position s) + d) (y (position s)) Hb)
    as [ok Hok].
  exists ok. split; [done|].
  unfold commit, moveHorizontally. rewrite Hp, Hok. run_bind.
  destruct ok; run_bind; rewrite ?Hp; done.
Qed.

Lemma moveHorizontally_moves_or_ignores_witness :
  board_ok (board restingState) = true
  /\ currentPiece restingState = Some O_piece
  /\ commit restingState (moveHorizontally restingState (-1))
     = Ok {| board := createEmptyBoard; currentPiece := Some O_piece;
             position := {| x := 3; y := 18 |}; gameOver := false; score := 0 |}.
Proof.
  split; [reflexivity|]. split; [reflexivity|].
  destruct (moveHorizontally_moves_or_ignores restingState O_piece (-1) eq_refl eq_refl)
    as (ok & Hok & _ & Hcommit).
  rewrite Hcommit. vm_compute in Hok. injection Hok as <-. reflexivity.
Defined.

(** * Rotation *)

Lemma shape_ok_rect (sh : list (list Z)) :
  shape_ok sh = true <->
  exists h w : nat, (0 < h)%nat /\ (0 < w)%nat /\ rect h w sh.
Proof.
  unfold shape_ok, rect. split.
  - destruct sh as [|row0 rest]; [discriminate|].
    rewrite andb_true_iff, Nat.ltb_lt, forallb_forall. intros [Hw Hrows].
    exists (length (row0 :: rest)), (length row0).
    split; [cbn; lia|]. split; [done|]. split; [done|].
    apply Forall_forall. intros row Hin. apply list_elem_of_In in Hin.
    by apply Nat.eqb_eq, Hrows.
  - intros (h & w & Hh & Hw & Hlen & Hrows). destruct sh as [|row0 rest]; [cbn in Hlen; lia|].
    rewrite Forall_forall in Hrows.
    assert (Hw0 : length row0 = w) by (apply Hrows; left).
    rewrite andb_true_iff, Nat.ltb_lt, forallb_forall. split; [lia|].
    intros row Hin. apply Nat.eqb_eq. rewrite Hw0. by apply Hrows, list_elem_of_In.
Qed.

Lemma entry_lookup (m : list (list Z)) (i j : nat) (row : list Z) :
  m !! i = Some row -> entry m i j = default 0 (row !! j).
Proof.
  intros Hi. unfold entry. rewrite (nth_lookup_Some _ _ _ _ Hi). apply nth_lookup.
Qed.

(** The candidate of [rotate] is the quarter turn of the matrix: it has the
    dimensions swapped, and its entry in row [i], column [j] is the entry of
    the original in row [h - 1 - j], column [i]. *)
Lemma rotateShape_rect (h w : nat) (sh : list (list Z)) :
  rect h w sh -> (0 < h)%nat ->
  exists sh', rotateShape sh = Ok sh'
    /\ rect w h sh'
    /\ forall i j : nat, (i < w)%nat -> (j < h)%nat ->
         entry sh' i j = entry sh (h - 1 - j) i.
Proof.
  intros [Hlen Hrows] Hh. destruct sh as [|row0 rest]; [cbn in Hlen; lia|].
  assert (Hw0 : length row0 = w) by (by inversion Hrows).
  cbn [rotateShape]. rewrite Hw0. eexists. split; [done|].
  set (sh := row0 :: rest) in *. split; [split|].
  - by rewrite length_fmap, length_seq.
  - apply Forall_fmap, Forall_forall. intros index _. unfold compose. cbv beta.
    by rewrite length_reverse, length_fmap.
  - intros i j Hi Hj.
    destruct (lookup_lt_is_Some_2 sh (h - 1 - j)) as [row Hrow]; [lia|].
    rewrite (entry_lookup sh _ _ row Hrow).
    assert (Hi' : ((fun index => reverse ((fun row => nth index row 0) <$> sh))
                     <$> seq 0 w) !! i
                  = Some (reverse ((fun row => nth i row 0) <$> sh))).
    { by rewrite list_lookup_fmap, lookup_seq_lt by done. }
    rewrite (entry_lookup _ _ _ _ Hi').
    rewrite reverse_lookup by (rewrite length_fmap; lia).
    rewrite length_fmap, Hlen, list_lookup_fmap.
    replace (h - S j)%nat with (h - 1 - j)%nat by lia.
    rewrite Hrow. cbn. apply nth_lookup.
Qed.

Lemma rect_ext (h w : nat) (m1 m2 : list (list Z)) :
  rect h w m1 -> rect h w m2 ->
  (forall i j : nat, (i < h)%nat -> (j < w)%nat -> entry m1 i j = entry m2 i j) ->
  m1 = m2.
Proof.
  intros [Hl1 Hr1] [Hl2 Hr2] Hent. apply list_eq. intros i.
  destruct (decide (i < h)%nat) as [Hi|Hi].
  - destruct (lookup_lt_is_Some_2 m1 i) as [r1 H1]; [lia|].
    destruct (lookup_lt_is_Some_2 m2 i) as [r2 H2]; [lia|].
    rewrite H1, H2. f_equal.
    pose proof (Forall_lookup_1 _ _ _ _ Hr1 H1) as Hw1.
    pose proof (Forall_lookup_1 _ _ _ _ Hr2 H2) as Hw2. cbn in Hw1, Hw2.
    apply list_eq. intros j.
    destruct (decide (j < w)%nat) as [Hj|Hj].
    + specialize (Hent i j Hi Hj).
      rewrite (entry_lookup m1 _ _ r1 H1), (entry_lookup m2 _ _ r2 H2) in Hent.
      destruct (lookup_lt_is_Some_2 r1 j) as [v1 Hv1]; [lia|].
      destruct (lookup_lt_is_Some_2 r2 j) as [v2 Hv2]; [lia|].
      rewrite Hv1, Hv2 in *. cbn in Hent. by rewrite Hent.
    + rewrite !(proj2 (lookup_ge_None _ _)) by lia. done.
  - rewrite !(proj2 (lookup_ge_None _ _)) by lia. done.
Qed.

(** Four quarter turns of a non-degenerate rectangular matrix. *)
Lemma rotateShape_four (h w : nat) (sh : list (list Z)) :
  rect h w sh -> (0 < h)%nat -> (0 < w)%nat ->
  exists s1 s2 s3,
    rotateShape sh = Ok s1 /\ rotateShape s1 = Ok s2
    /\ rotateShape s2 = Ok s3 /\ rotateShape s3 = Ok sh.
Proof.
  intros Hr Hh Hw.
  destruct (rotateShape_rect h w sh Hr Hh) as (s1 & H1 & Hr1 & He1).
  destruct (rotateShape_rect w h s1 Hr1 Hw) as (s2 & H2 & Hr2 & He2).
  destruct (rotateShape_rect h w s2 Hr2 Hh) as (s3 & H3 & Hr3 & He3).
  destruct (rotateShape_rect w h s3 Hr3 Hw) as (s4 & H4 & Hr4 & He4).
  exists s1, s2, s3. split; [done|]. split; [done|]. split; [done|].
  rewrite H4. f_equal. apply (rect_ext h w); [done|done|].
  intros i j Hi Hj.
  rewrite He4, He3, He2, He1 by lia. f_equal; lia.
Qed.

(** The source's expression is the transpose with every row reversed. *)
Lemma transpose_columns (h w : nat) (sh : list (list Z)) :
  rect h w sh -> (0 < h)%nat ->
  transpose sh = (fun index => (fun row => nth index row 0) <$> sh) <$> seq 0 w.
Proof.
  revert h. induction sh as [|row rest IH]; intros h [Hlen Hrows] Hh; [cbn in Hlen; lia|].
  assert (Hw0 : length row = w) by (by inversion Hrows).
  destruct rest as [|row2 rest].
  - cbn [transpose]. apply list_eq. intros i.
    rewrite !list_lookup_fmap.
    destruct (decide (i < w)%nat) as [Hi|Hi].
    + destruct (lookup_lt_is_Some_2 row i) as [v Hv]; [lia|].
      rewrite Hv, lookup_seq_lt by done. cbn. by rewrite (nth_lookup_Some _ _ _ _ Hv).
    + rewrite (proj2 (lookup_ge_None row i)) by lia.
      by rewrite lookup_seq_ge by lia.
  - change (transpose (row :: row2 :: rest))
      with (zip_with cons row (transpose (row2 :: rest))).
    rewrite (IH (length (row2 :: rest))); [|split; [done|by inversion Hrows]|cbn; lia].
    apply list_eq. intros i. rewrite lookup_zip_with, !list_lookup_fmap.
    destruct (decide (i < w)%nat) as [Hi|Hi].
    + destruct (lookup_lt_is_Some_2 row i) as [v Hv]; [lia|].
      rewrite Hv, lookup_seq_lt by done. cbn. by rewrite (nth_lookup_Some _ _ _ _ Hv).
    + rewrite (proj2 (lookup_ge_None row i)) by lia.
      by rewrite lookup_seq_ge by lia.
Qed.

Lemma rotateShape_transposeReverse (sh : list (list Z)) :
  shape_ok sh = true -> rotateShape sh = Ok (transposeReverse sh).
Proof.
  intros Hok. apply shape_ok_rect in Hok as (h & w & Hh & Hw & Hr).
  unfold transposeReverse. rewrite (transpose_columns h w sh Hr Hh).
  destruct Hr as [Hlen Hrows]. destruct sh as [|row0 rest]; [cbn in Hlen; lia|].
  assert (Hw0 : length row0 = w) by (by inversion Hrows).
  cbn [rotateShape]. rewrite Hw0, <- list_fmap_compose. done.
Qed.

(** C4. With a piece whose matrix is rectangular and non-empty, on a board
    of the fixed dimensions, [rotate] computes as candidate the transpose of
    the shape matrix with every row reversed, which is the quarter turn of
    the matrix inside its own bounding box (dimensions swapped, entry
    [(i, j)] taken from [(h - 1 - j, i)]); it tests the candidate with
    [isValidMove] at the unchanged origin and no other; it queues the
    candidate as the new piece exactly when that test holds, and queues
    nothing otherwise, so that position, board, score and flag never change
    and the shape changes only on acceptance. *)
Theorem rotate_applies_valid_quarter_turn (s : State) (piece : Tetromino) :
  board_ok (board s) = true ->
  shape_ok (shape piece) = true ->
  currentPiece s = Some piece ->
  exists cand ok,
    rotateShape (shape piece) = Ok cand
    /\ cand = transposeReverse (shape piece)
    /\ (forall h w : nat, rect h w (shape piece) ->
          rect w h cand
          /\ forall i j : nat, (i < w)%nat -> (j < h)%nat ->
               entry cand i j = entry (shape piece) (h - 1 - j) i)
    /\ isValidMove (board s) {| shape := cand; color := color piece |}
         (x (position s)) (y (position s)) = Ok ok
    /\ rotate s
       = Ok (if ok
             then [setCurrentPiece (Some {| shape := cand; color := color piece |})]
             else [])
    /\ commit s (rotate s)
       = Ok (if ok
             then {| board := board s;
                     currentPiece := Some {| shape := cand; color := color piece |};
                     position := position s;
                     gameOver := gameOver s; score := score s |}
             else s).
Proof.
  intros Hb Hsh Hp.
  pose proof (rotateShape_transposeReverse _ Hsh) as Hrot.
  set (cand := transposeReverse (shape piece)) in *.
  destruct (isValidMove_total (board s) {| shape := cand; color := color piece |}
              (x (position s)) (y (position s)) Hb) as [ok Hok].
  exists cand, ok. split; [done|]. split; [done|]. split.
  { intros h w Hr. apply shape_ok_rect in Hsh as (h' & w' & Hh' & Hw' & Hr').
    assert (h' = h) as -> by (destruct Hr, Hr'; congruence).
    destruct (rotateShape_rect h w _ Hr Hh') as (sh' & Hsh' & Hr2 & Hent).
    rewrite Hrot in Hsh'. injection Hsh' as <-. done. }
  split; [done|].
  unfold commit, rotate. rewrite Hp, Hrot. run_bind. rewrite Hok. run_bind.
  destruct ok; run_bind; done.
Qed.

Lemma rotate_applies_valid_quarter_turn_witness :
  board_ok (board midState) = true
  /\ shape_ok (shape T_piece) = true
  /\ currentPiece midState = Some T_piece
  /\ commit midState (rotate midState)
     = Ok {| board := createEmptyBoard;
             currentPiece :=
               Some {| shape := [[0; 1]; [1; 1]; [0; 1]]; color := "#aa00ff" |};
             position := {| x := 4; y := 5 |}; gameOver := false; score := 0 |}.
Proof.
  split; [reflexivity|]. split; [reflexivity|]. split; [reflexivity|].
  destruct (rotate_applies_valid_quarter_turn midState T_piece eq_refl eq_refl eq_refl)
    as (cand & ok & Hcand & _ & _ & Hok & _ & Hcommit).
  rewrite Hcommit. vm_compute in Hcand. injection Hcand as <-.
  vm_compute in Hok. injection Hok as <-. reflexivity.
Defined.

Lemma rotateStep_accepted (s : State) (piece : Tetromino) :
  currentPiece s = Some piece ->
  rotateAccepted s = true ->
  exists cand, rotateShape (shape piece) = Ok cand
    /\ rotateStep s = Ok (withPiece s {| shape := cand; color := color piece |}).
Proof.
  intros Hp. unfold rotateAccepted, rotateStep, commit, rotate. rewrite Hp.
  destruct (rotateShape (shape piece)) as [cand|]; run_bind; [|discriminate].
  destruct (isValidMove _ _ _ _) as [[|]|]; run_bind; try discriminate.
  intros _. by exists cand.
Qed.

(** C8. For a rectangular matrix with at least one row and one column, four
    applications of the rotation transform return the matrix itself; and a
    state whose piece has such a matrix is back, after four calls of
    [rotate] that are all accepted, to the state it started from. *)
Theorem four_rotations_restore_shape (sh : list (list Z)) :
  shape_ok sh = true ->
  rotateShape4 sh = Ok sh
  /\ forall (s : State) (piece : Tetromino),
       currentPiece s = Some piece -> shape piece = sh ->
       rotationsAccepted 4 s = true ->
       rotateStep4 s = Ok s.
Proof.
  intros Hsh. apply shape_ok_rect in Hsh as (h & w & Hh & Hw & Hr).
  destruct (rotateShape_four h w sh Hr Hh Hw) as (c1 & c2 & c3 & H1 & H2 & H3 & H4).
  split.
  { unfold rotateShape4. rewrite H1. run_bind. rewrite H2. run_bind.
    rewrite H3. run_bind. exact H4. }
  intros s piece Hp <- Hacc. unfold rotateStep4.
  cbn [rotationsAccepted] in Hacc.
  apply andb_prop in Hacc as [Ha0 Hacc].
  destruct (rotateStep_accepted s piece Hp Ha0) as (d1 & Hd1 & Hs1).
  rewrite Hs1 in Hacc |- *. run_bind.
  apply andb_prop in Hacc as [Ha1 Hacc].
  destruct (rotateStep_accepted (withPiece _ _) _ eq_refl Ha1) as (d2 & Hd2 & Hs2).
  rewrite Hs2 in Hacc |- *. run_bind.
  apply andb_prop in Hacc as [Ha2 Hacc].
  destruct (rotateStep_accepted (withPiece _ _) _ eq_refl Ha2) as (d3 & Hd3 & Hs3).
  rewrite Hs3 in Hacc |- *. run_bind.
  apply andb_prop in Hacc as [Ha3 _].
  destruct (rotateStep_accepted (withPiece _ _) _ eq_refl Ha3) as (d4 & Hd4 & Hs4).
  rewrite Hs4. cbn [shape color] in *.
  assert (d1 = c1) as -> by congruence.
  assert (d2 = c2) as -> by congruence.
  assert (d3 = c3) as -> by congruence.
  assert (d4 = shape piece) as -> by congruence.
  unfold withPiece. cbn [board position gameOver score].
  destruct s, piece. cbn in *. congruence.
Qed.

Lemma four_rotations_restore_shape_witness :
  shape_ok (shape T_piece) = true
  /\ rotateShape4 (shape T_piece) = Ok (shape T_piece)
  /\ rotationsAccepted 4 midState = true
  /\ rotateStep4 midState = Ok midState.
Proof.
  split; [reflexivity|].
  destruct (four_rotations_restore_shape (shape T_piece) eq_refl) as [Hpure Hengine].
  split; [exact Hpure|]. split; [reflexivity|].
  apply (Hengine midState T_piece); reflexivity.
Defined.

(** * The invariant of the engine *)

Lemma spawn_ok (rnd : nat) :
  (rnd < length TETROMINOS)%nat ->
  exists piece, TETROMINOS !! rnd = Some piece
    /\ shape_ok (shape piece) = true
    /\ inBounds (shape piece) {| x := BOARD_WIDTH / 2 - 1; y := 0 |} = true.
Proof.
  intros Hlt. do 7 (destruct rnd as [|rnd]; [eexists; split; [reflexivity|]; by vm_compute|]).
  cbn in Hlt. lia.
Qed.

Lemma board_ok_clearedBoard (b : Board) :
  board_ok b = true -> board_ok (clearedBoard b) = true.
Proof.
  intros Hb. pose proof Hb as Hwf. apply board_ok_iff in Hwf as [Hlen Hrows].
  destruct (clearedBoard_spec b Hlen) as [-> _].
  pose proof (length_removeComplete b) as Hsum.
  apply board_ok_iff. split.
  - rewrite length_app, length_replicate. lia.
  - intros i row Hi. apply lookup_app_Some in Hi as [Hi|[_ Hi]].
    + apply lookup_replicate in Hi as [-> _]. split; [by rewrite length_replicate|].
      intros j c Hj. apply lookup_replicate in Hj as [-> _]. done.
    + assert (Hin : row ∈ removeComplete b) by (apply list_elem_of_lookup; eauto).
      apply elem_of_removeComplete in Hin as [Hin _].
      apply list_elem_of_lookup in Hin as [i' Hi']. eauto.
Qed.

(** A piece that [isValidMove] accepts where it stands is merged onto empty
    cells only: every colored cell of the board keeps its color. *)
Lemma mergedBoard_keeps_colors (b b' : Board) (piece : Tetromino) (pos : Position) :
  board_ok b = true -> 0 <= y pos ->
  isValidMove b piece (x pos) (y pos) = Ok true ->
  mergedBoard b piece pos = Ok b' ->
  forall X Y c, cellAt b X Y = Some (Color c) -> cellAt b' X Y = Some (Color c).
Proof.
  intros Hb Hy Hok Hm X Y c Hc.
  destruct (mergedBoard_spec b piece pos Hb (isValidMove_inBounds b piece pos Hb Hy Hok))
    as (b2 & Hb2 & _ & Hcells).
  rewrite Hm in Hb2. injection Hb2 as <-. rewrite Hcells.
  destruct (covers piece pos X Y) eqn:Hcov; [|done].
  apply covers_iff in Hcov as (i & j & Hocc & -> & ->).
  destruct (isValidMove_true_cells b piece _ _ Hb Hok i j Hocc) as (_ & _ & Hz).
  rewrite Z.add_0_l in Hc. rewrite Hz in Hc by lia. discriminate.
Qed.

Lemma applyUpdates_app (s : State) (us us' : list Update) :
  applyUpdates s (us ++ us') = applyUpdates (applyUpdates s us) us'.
Proof. apply fold_left_app. Qed.

Lemma state_eta (s : State) :
  {| board := board s; currentPiece := currentPiece s; position := position s;
     gameOver := gameOver s; score := score s |} = s.
Proof. by destruct s. Qed.

Lemma rotated_shape_ok (sh cand : list (list Z)) :
  shape_ok sh = true -> rotateShape sh = Ok cand -> shape_ok cand = true.
Proof.
  intros Hsh Hrot. apply shape_ok_rect in Hsh as (h & w & Hh & Hw & Hr).
  destruct (rotateShape_rect h w sh Hr Hh) as (sh' & Hsh' & Hr' & _).
  rewrite Hrot in Hsh'. injection Hsh' as <-.
  apply shape_ok_rect. by exists w, h.
Qed.

Lemma keyStep_refl (s : State) : state_ok s = true -> keyStep s s.
Proof.
  intros Hs. split; [done|]. split; [done|]. split; [done|].
  split; [by intros X Y c|]. by left.
Qed.

Section Handlers.
Variable s : State.
Hypothesis HInv : Inv s.
Hypothesis Hplaying : gameOver s = false.

Lemma moveHorizontally_keyStep (d : Z) :
  exists t, commit s (moveHorizontally s d) = Ok t /\ keyStep s t.
Proof using HInv Hplaying.
  destruct HInv as (Hok & Hvalid & _).
  pose proof Hok as Hok'. apply state_ok_iff in Hok' as (Hb & Hy & Hpiece).
  unfold commit, moveHorizontally.
  destruct (currentPiece s) as [piece|] eqn:Hp; run_bind;
    [|exists s; split; [done|by apply keyStep_refl]].
  destruct (Hpiece piece eq_refl) as [Hsh Hin].
  destruct (isValidMove_total (board s) piece (x (position s) + d) (y (position s)) Hb)
    as [ok Hmove].
  rewrite Hmove. run_bind.
  destruct ok; run_bind; [|exists s; split; [done|by apply keyStep_refl]].
  eexists. split; [done|].
  split; [|split; [done|split; [done|split; [by intros X Y c|by left]]]].
  apply state_ok_iff. cbn. split; [done|]. split; [done|].
  rewrite Hp. intros ? [= <-]. split; [done|].
  by apply (isValidMove_inBounds (board s) piece
              {| x := x (position s) + d; y := y (position s) |}).
Qed.

Lemma moveDown_keyStep (rnd : nat) :
  (rnd < length TETROMINOS)%nat ->
  exists t, commit s (moveDown s rnd) = Ok t /\ keyStep s t.
Proof using HInv Hplaying.
  intros Hlt. destruct HInv as (Hok & Hvalid & _).
  pose proof Hok as Hok'. apply state_ok_iff in Hok' as (Hb & Hy & Hpiece).
  unfold commit, moveDown, mergePieceToBoard.
  destruct (currentPiece s) as [piece|] eqn:Hp; run_bind;
    [|exists s; split; [done|by apply keyStep_refl]].
  destruct (Hpiece piece eq_refl) as [Hsh Hin].
  destruct (isValidMove_total (board s) piece (x (position s)) (y (position s) + 1) Hb)
    as [ok Hmove].
  rewrite Hmove. run_bind. destruct ok; run_bind.
  - eexists. split; [done|].
    split; [|split; [done|split; [done|split; [by intros X Y c|right; by left]]]].
    apply state_ok_iff. cbn. split; [done|]. split; [lia|].
    rewrite Hp. intros ? [= <-]. split; [done|].
    apply (isValidMove_inBounds (board s) piece
             {| x := x (position s); y := y (position s) + 1 |}); cbn; [done|lia|done].
  - destruct (mergedBoard_spec (board s) piece (position s) Hb Hin)
      as (b' & Hm & Hb' & _).
    rewrite Hm. unfold spawnNewPiece. run_bind.
    destruct (spawn_ok rnd Hlt) as (piece' & Hspawn & Hsh' & Hin').
    eexists. split; [done|].
    split; [|split; [done|split; [done|split; [|right; by right]]]].
    + apply state_ok_iff. cbn. split; [done|]. split; [done|].
      rewrite Hspawn. by intros ? [= <-].
    + cbn. intros X Y c.
      apply (mergedBoard_keeps_colors _ _ piece (position s)); auto.
Qed.

Lemma rotate_keyStep :
  exists t, commit s (rotate s) = Ok t /\ keyStep s t.
Proof using HInv Hplaying.
  destruct HInv as (Hok & Hvalid & _).
  pose proof Hok as Hok'. apply state_ok_iff in Hok' as (Hb & Hy & Hpiece).
  unfold commit, rotate.
  destruct (currentPiece s) as [piece|] eqn:Hp; run_bind;
    [|exists s; split; [done|by apply keyStep_refl]].
  destruct (Hpiece piece eq_refl) as [Hsh Hin].
  rewrite (rotateShape_transposeReverse _ Hsh). run_bind.
  set (rotatedPiece := {| shape := transposeReverse (shape piece); color := color piece |}).
  destruct (isValidMove_total (board s) rotatedPiece (x (position s)) (y (position s)) Hb)
    as [ok Hmove].
  rewrite Hmove. run_bind.
  destruct ok; run_bind; [|exists s; split; [done|by apply keyStep_refl]].
  eexists. split; [done|].
  split; [|split; [done|split; [done|split; [by intros X Y c|by left]]]].
  apply state_ok_iff. cbn. split; [done|]. split; [done|].
  intros ? [= <-]. split.
  - apply (rotated_shape_ok (shape piece)); [done|].
    by apply rotateShape_transposeReverse.
  - by apply (isValidMove_inBounds (board s) rotatedPiece (position s)).
Qed.

Lemma handleKeyPress_keyStep (key : string) (rnd : nat) :
  (rnd < length TETROMINOS)%nat ->
  exists t, commit s (handleKeyPress s key rnd) = Ok t /\ keyStep s t.
Proof using HInv Hplaying.
  intros Hlt. unfold handleKeyPress. rewrite Hplaying.
  destruct (String.eqb key "ArrowLeft"); [apply moveHorizontally_keyStep|].
  destruct (String.eqb key "ArrowRight"); [apply moveHorizontally_keyStep|].
  destruct (String.eqb key "ArrowDown"); [by apply moveDown_keyStep|].
  destruct (String.eqb key "ArrowUp"); [apply rotate_keyStep|].
  exists s. split; [done|]. apply keyStep_refl. apply HInv.
Qed.

(** A gravity tick: whatever [moveDown] queued for the board is overwritten
    by the board that [checkLines] computed from the rendered one. *)
Lemma gameLoop_step (rnd : nat) :
  (rnd < length TETROMINOS)%nat ->
  exists t, commit s (gameLoop s rnd) = Ok t
    /\ state_ok t = true
    /\ gameOver t = false
    /\ board t = clearedBoard (board s)
    /\ score t = score s + 100 * Z.of_nat (countComplete (board s))
    /\ rowStep s t.
Proof using HInv Hplaying.
  intros Hlt. destruct (moveDown_keyStep rnd Hlt) as (t & Ht & Hk).
  destruct Hk as (Hok & Hgo & _ & _ & Hrow).
  unfold commit in Ht. unfold commit, gameLoop. rewrite Hplaying.
  destruct (moveDown s rnd) as [us|]; run_bind; [|discriminate].
  run_bind. injection Ht as Ht.
  rewrite applyUpdates_app, Ht. unfold checkLines. run_bind.
  eexists. split; [done|]. cbn.
  apply state_ok_iff in Hok as (Hb & Hy & Hpiece).
  destruct HInv as (Hs & _ & _). apply state_ok_iff in Hs as (Hbs & _ & _).
  pose proof Hbs as Hlen. apply board_ok_iff in Hlen as [Hlen _].
  destruct (clearedBoard_spec (board s) Hlen) as [_ Hlines].
  split; [|split; [congruence|split; [done|split; [lia|done]]]].
  apply state_ok_iff. cbn. split; [by apply board_ok_clearedBoard|]. done.
Qed.

End Handlers.

(** * Effects *)

Lemma runEffects_piece (t : State) (piece : Tetromino) (rnd : nat) :
  state_ok t = true ->
  currentPiece t = Some piece ->
  exists t', runEffects t rnd = Ok t'
    /\ Inv t'
    /\ board t' = board t /\ score t' = score t
    /\ currentPiece t' = Some piece /\ position t' = position t
    /\ (gameOver t = true -> t' = t).
Proof.
  intros Hok Hp. pose proof Hok as Hok'.
  apply state_ok_iff in Hok' as (Hb & Hy & Hpiece).
  destruct (isValidMove_total (board t) piece (x (position t)) (y (position t)) Hb)
    as [ok Hmove].
  unfold runEffects, gameOverEffect, spawnEffect. rewrite Hp, Hmove. run_bind.
  destruct ok; run_bind.
  - exists t. split; [done|]. split; [|done].
    split; [done|]. split; [|congruence].
    intros _ ? Hp'. rewrite Hp in Hp'. by injection Hp' as <-.
  - eexists. split; [done|]. cbn. split; [|split; [done|split; [done|split; [done|split; [done|]]]]].
    + split; [|split].
      * unfold state_ok in *. cbn. done.
      * cbn. discriminate.
      * cbn. congruence.
    + intros Hgo. rewrite <- Hgo. apply state_eta.
Qed.

(** A state that satisfies the invariant and has a piece is left alone by
    the effects. *)
Lemma runEffects_stable (t : State) (rnd : nat) :
  Inv t -> currentPiece t <> None -> runEffects t rnd = Ok t.
Proof.
  intros (Hok & Hvalid & _) Hsome.
  destruct (currentPiece t) as [piece|] eqn:Hp; [|done].
  pose proof Hok as Hok'. apply state_ok_iff in Hok' as (Hb & _ & _).
  unfold runEffects, gameOverEffect, spawnEffect. rewrite Hp.
  destruct (gameOver t) eqn:Hgo.
  - destruct (isValidMove_total (board t) piece (x (position t)) (y (position t)) Hb)
      as [ok Hmove].
    rewrite Hmove. run_bind. destruct ok; run_bind; [done|].
    f_equal. rewrite <- Hgo. apply state_eta.
  - rewrite (Hvalid eq_refl piece eq_refl). by run_bind.
Qed.

Lemma settle_spec (t : State) (rnd : nat) :
  state_ok t = true ->
  (rnd < length TETROMINOS)%nat ->
  exists t', settle t rnd = Ok t'
    /\ Inv t'
    /\ currentPiece t' <> None
    /\ board t' = board t /\ score t' = score t
    /\ (gameOver t = true -> currentPiece t <> None -> t' = t)
    /\ (y (position t') = y (position t) \/ y (position t') = 0).
Proof.
  intros Hok Hlt. unfold settle.
  destruct (currentPiece t) as [piece|] eqn:Hp.
  - destruct (runEffects_piece t piece rnd Hok Hp)
      as (t1 & Ht1 & HInv1 & Hb1 & Hs1 & Hp1 & Hpos1 & Hgo1).
    rewrite Ht1. run_bind.
    rewrite (runEffects_stable t1 rnd HInv1) by congruence.
    exists t1. split; [done|]. split; [done|]. split; [congruence|].
    split; [done|]. split; [done|]. split; [auto|]. left. congruence.
  - pose proof Hok as Hok'. apply state_ok_iff in Hok' as (Hb & Hy & _).
    destruct (spawn_ok rnd Hlt) as (piece & Hspawn & Hsh & Hin).
    assert (H1 : runEffects t rnd = Ok (applyUpdates t (spawnNewPiece rnd))).
    { unfold runEffects, gameOverEffect, spawnEffect. rewrite Hp. run_bind.
      by rewrite app_nil_r. }
    rewrite H1. unfold spawnNewPiece. run_bind. rewrite Hspawn.
    match goal with |- context [runEffects ?t1 rnd] =>
      destruct (runEffects_piece t1 piece rnd)
        as (t2 & Ht2 & HInv2 & Hb2 & Hs2 & Hp2 & Hpos2 & _)
    end.
    { apply state_ok_iff. cbn. split; [done|]. split; [done|]. by intros ? [= <-]. }
    { done. }
    rewrite Ht2. exists t2. split; [done|]. split; [done|]. split; [congruence|].
    split; [done|]. split; [done|]. split; [done|]. right. by rewrite Hpos2.
Qed.

(** Further passes of the effects change nothing. *)
Lemma settle_stable (t t' : State) (rnd rnd' : nat) :
  state_ok t = true ->
  (rnd < length TETROMINOS)%nat ->
  settle t rnd = Ok t' ->
  runEffects t' rnd' = Ok t'.
Proof.
  intros Hok Hlt Hset.
  destruct (settle_spec t rnd Hok Hlt) as (t2 & Ht2 & HInv & Hsome & _).
  rewrite Hset in Ht2. injection Ht2 as <-. by apply runEffects_stable.
Qed.

(** * One event *)

Lemma dispatch_commit (s : State) (ev : Event) (rnd : nat) :
  dispatch s ev rnd = (t ← commit s (handler s ev rnd); settle t rnd).
Proof. unfold dispatch, commit. by destruct (handler s ev rnd). Qed.

Lemma handler_gameOver (s : State) (ev : Event) (rnd : nat) :
  gameOver s = true -> handler s ev rnd = Ok [].
Proof.
  intros Hgo. destruct ev; cbn; unfold handleKeyPress, gameLoop; by rewrite Hgo.
Qed.

Lemma dispatch_gameOver (s : State) (ev : Event) (rnd : nat) :
  Inv s -> gameOver s = true -> dispatch s ev rnd = Ok s.
Proof.
  intros HInv Hgo. unfold dispatch. rewrite handler_gameOver by done. run_bind.
  assert (Hstable : runEffects s rnd = Ok s).
  { apply runEffects_stable; [done|]. destruct HInv as (_ & _ & Hsome). auto. }
  unfold settle. rewrite Hstable. run_bind. exact Hstable.
Qed.

Lemma dispatch_spec (s : State) (ev : Event) (rnd : nat) :
  Inv s ->
  (rnd < length TETROMINOS)%nat ->
  exists s', dispatch s ev rnd = Ok s'
    /\ Inv s'
    /\ rowStep s s'
    /\ match ev with
       | KeyDown _ => score s' = score s /\ keepsColors (board s) (board s')
       | Tick =>
           board s' = (if gameOver s then board s else clearedBoard (board s))
           /\ score s' = score s + (if gameOver s then 0
                                    else 100 * Z.of_nat (countComplete (board s)))
       end.
Proof.
  intros HInv Hlt. destruct (gameOver s) eqn:Hgo.
  { exists s. split; [by apply dispatch_gameOver|]. split; [done|].
    split; [by left|]. destruct ev; [split; [done|by intros X Y c]|].
    split; [done|lia]. }
  rewrite dispatch_commit. destruct ev as [key|]; cbn [handler].
  - destruct (handleKeyPress_keyStep s HInv Hgo key rnd Hlt)
      as (t & Ht & Hok & _ & Hscore & Hcolors & Hrow).
    rewrite Ht. run_bind.
    destruct (settle_spec t rnd Hok Hlt)
      as (s' & Hs' & HInv' & _ & Hb' & Hsc' & _ & Hy').
    exists s'. split; [done|]. split; [done|]. split.
    { unfold rowStep in *. destruct Hy' as [->| ->]; auto. }
    split; [congruence|]. by rewrite Hb'.
  - destruct (gameLoop_step s HInv Hgo rnd Hlt)
      as (t & Ht & Hok & _ & Hboard & Hscore & Hrow).
    rewrite Ht. run_bind.
    destruct (settle_spec t rnd Hok Hlt)
      as (s' & Hs' & HInv' & _ & Hb' & Hsc' & _ & Hy').
    exists s'. split; [done|]. split; [done|]. split.
    { unfold rowStep in *. destruct Hy' as [->| ->]; auto. }
    split; congruence.
Qed.

(** The two ways a piece settles.  Pressed down, the O piece on the floor
    is merged into the board.  On a gravity tick the board queued by
    [mergePieceToBoard] is replaced, in the same batch, by the board that
    [checkLines] computed from the rendered one, and the piece is gone. *)
Example arrowDown_settles_piece :
  exists s', dispatch restingState (KeyDown "ArrowDown") 1 = Ok s'
    /\ cellAt (board s') 4 18 = Some (Color "#ffd800")
    /\ currentPiece s' = Some I_piece.
Proof. eexists. split; [vm_compute; reflexivity|]. split; reflexivity. Qed.

Example tick_drops_settled_piece :
  dispatch restingState Tick 1
  = Ok {| board := createEmptyBoard; currentPiece := Some I_piece;
          position := {| x := 4; y := 0 |}; gameOver := false; score := 0 |}.
Proof. vm_compute. reflexivity. Qed.

Lemma Inv_initialState : Inv initialState.
Proof. split; [reflexivity|]. split; [intros _ ? [=]|intros [=]]. Qed.

Lemma reachable_Inv (s : State) : reachable s -> Inv s.
Proof.
  induction 1 as [|s ev rnd s' _ IH Hlt Hstep]; [apply Inv_initialState|].
  destruct (dispatch_spec s ev rnd IH Hlt) as (s2 & Hs2 & HInv & _).
  rewrite Hstep in Hs2. by injection Hs2 as <-.
Qed.

Lemma reachable_run (s s' : State) (evs : list (Event * nat)) :
  reachable s ->
  forallb (fun e => (snd e <? length TETROMINOS)%nat) evs = true ->
  run s evs = Ok s' ->
  reachable s'.
Proof.
  revert s. induction evs as [|[ev rnd] evs IH]; intros s Hreach Hall Hrun.
  - cbn in Hrun. by injection Hrun as <-.
  - cbn [forallb snd] in Hall. apply andb_prop in Hall as [Hlt Hall].
    apply Nat.ltb_lt in Hlt.
    cbn [run] in Hrun.
    destruct (dispatch s ev rnd) as [s1|] eqn:Hstep; [|discriminate].
    apply (IH s1); [|done|done]. by apply (reach_step s ev rnd).
Qed.

Lemma stateAfter_reachable (evs : list (Event * nat)) :
  forallb (fun e => (snd e <? length TETROMINOS)%nat) evs = true ->
  reachable (stateAfter evs).
Proof.
  intros Hall. unfold stateAfter.
  destruct (run initialState evs) as [s|] eqn:Hrun; [|apply reach_init].
  by apply (reachable_run initialState s evs); [apply reach_init| |].
Qed.

Lemma fullRowsState_reachable : reachable fullRowsState.
Proof. apply stateAfter_reachable. vm_compute. reflexivity. Qed.

Lemma gameOverState_reachable : reachable gameOverState.
Proof. apply stateAfter_reachable. vm_compute. reflexivity. Qed.

(** * Properties of the reachable states *)

(** C5. In a reachable state whose game-over flag is set, the key handler
    and the tick handler queue no update at all, an event leaves the state
    as it is, and so does every sequence of events: the flag stays set, and
    board, piece, position and score stay what they were. *)
Theorem gameOver_is_absorbing (s : State) :
  reachable s ->
  gameOver s = true ->
  (forall ev rnd, handler s ev rnd = Ok [] /\ dispatch s ev rnd = Ok s)
  /\ (forall evs, run s evs = Ok s).
Proof.
  intros Hreach Hgo. apply reachable_Inv in Hreach.
  assert (Hstep : forall ev rnd, dispatch s ev rnd = Ok s)
    by (intros; by apply dispatch_gameOver).
  split.
  - intros ev rnd. split; [by apply handler_gameOver|apply Hstep].
  - induction evs as [|[ev rnd] evs IH]; [done|].
    cbn [run]. rewrite Hstep. by run_bind.
Qed.

Lemma gameOver_is_absorbing_witness :
  reachable gameOverState
  /\ gameOver gameOverState = true
  /\ run gameOverState [(Tick, 3%nat); press "ArrowLeft"; press "ArrowUp";
                        press "ArrowDown"; (Tick, 5%nat)]
     = Ok gameOverState.
Proof.
  split; [apply gameOverState_reachable|]. split; [vm_compute; reflexivity|].
  apply (gameOver_is_absorbing gameOverState gameOverState_reachable).
  vm_compute. reflexivity.
Defined.

(** C7. In every reachable state the board has [BOARD_HEIGHT] rows of
    [BOARD_WIDTH] cells, each empty or colored, and it still has after any
    event.  A key press (which may run [moveHorizontally], [rotate] or
    [moveDown] with its merge) leaves every colored cell with its color;
    the only other change to the board is the one of a tick, which replaces
    the board by the result of the line clear. *)
Theorem board_shape_and_colors_kept (s : State) :
  reachable s ->
  (board_ok (board s) = true
   /\ length (board s) = Z.to_nat BOARD_HEIGHT
   /\ Forall (fun row => length row = Z.to_nat BOARD_WIDTH) (board s))
  /\ forall ev rnd, (rnd < length TETROMINOS)%nat ->
       exists s', dispatch s ev rnd = Ok s'
         /\ board_ok (board s') = true
         /\ match ev with
            | KeyDown _ => keepsColors (board s) (board s')
            | Tick =>
                board s' = (if gameOver s then board s else clearedBoard (board s))
            end.
Proof.
  intros Hreach. pose proof (reachable_Inv s Hreach) as HInv. split.
  - destruct HInv as (Hok & _). apply state_ok_iff in Hok as (Hb & _).
    split; [done|]. apply board_ok_iff in Hb as [Hlen Hrows]. split; [done|].
    apply Forall_lookup. intros i row Hi. by apply (Hrows i row).
  - intros ev rnd Hlt.
    destruct (dispatch_spec s ev rnd HInv Hlt) as (s' & Hs' & HInv' & _ & Hev).
    exists s'. split; [done|]. split.
    + destruct HInv' as (Hok & _). by apply state_ok_iff in Hok as (Hb & _).
    + destruct ev; [apply Hev|apply Hev].
Qed.

Lemma board_shape_and_colors_kept_witness :
  reachable fullRowsState
  /\ length (board fullRowsState) = Z.to_nat BOARD_HEIGHT
  /\ exists s', dispatch fullRowsState (KeyDown "ArrowDown") 1 = Ok s'
       /\ keepsColors (board fullRowsState) (board s').
Proof.
  split; [apply fullRowsState_reachable|].
  destruct (board_shape_and_colors_kept fullRowsState fullRowsState_reachable)
    as [(_ & Hlen & _) Hstep].
  split; [exact Hlen|].
  destruct (Hstep (KeyDown "ArrowDown") 1%nat) as (s' & Hs' & _ & Hcolors);
    [vm_compute; lia|].
  exists s'. split; [exact Hs'|exact Hcolors].
Defined.

(** C9. From a reachable state every event leads to a state whose score is
    at least the old one.  A key press leaves the score alone; a tick adds
    100 for each complete row of the board (nothing once the game is
    over). *)
Theorem score_never_decreases (s : State) (ev : Event) (rnd : nat) :
  reachable s ->
  (rnd < length TETROMINOS)%nat ->
  exists s', dispatch s ev rnd = Ok s'
    /\ score s <= score s'
    /\ score s' = score s + 100 * Z.of_nat
         match ev with
         | KeyDown _ => 0
         | Tick => if gameOver s then 0 else countComplete (board s)
         end.
Proof.
  intros Hreach Hlt. apply reachable_Inv in Hreach.
  destruct (dispatch_spec s ev rnd Hreach Hlt) as (s' & Hs' & _ & _ & Hev).
  exists s'. split; [done|]. destruct ev as [key|].
  - destruct Hev as [-> _]. lia.
  - destruct Hev as [_ ->]. destruct (gameOver s); lia.
Qed.

Lemma score_never_decreases_witness :
  reachable fullRowsState
  /\ exists s', dispatch fullRowsState Tick 2 = Ok s'
       /\ score fullRowsState <= score s'
       /\ score s' = 200.
Proof.
  split; [apply fullRowsState_reachable|].
  destruct (score_never_decreases fullRowsState Tick 2 fullRowsState_reachable)
    as (s' & Hs' & Hle & Hscore); [vm_compute; lia|].
  exists s'. split; [exact Hs'|]. split; [exact Hle|].
  rewrite Hscore. vm_compute. reflexivity.
Defined.

(** C10. In every reachable state the row of the piece's origin is
    non-negative, and an event keeps it, adds one to it, or resets it to 0.
    Every occupied cell of the piece is at a column in [[0, BOARD_WIDTH)]
    and a row in [[0, BOARD_HEIGHT)], so a merge from that state returns a
    board without a TypeError and without changing the dimensions: no cell
    of a piece is above the board when the piece settles. *)
Theorem piece_always_on_board (s : State) :
  reachable s ->
  0 <= y (position s)
  /\ (forall piece, currentPiece s = Some piece ->
        (forall i j : nat, occupied (shape piece) i j = true ->
           0 <= x (position s) + Z.of_nat j < BOARD_WIDTH
           /\ 0 <= y (position s) + Z.of_nat i < BOARD_HEIGHT)
        /\ exists b', mergedBoard (board s) piece (position s) = Ok b'
             /\ board_ok b' = true)
  /\ (forall ev rnd, (rnd < length TETROMINOS)%nat ->
        exists s', dispatch s ev rnd = Ok s' /\ rowStep s s').
Proof.
  intros Hreach. pose proof (reachable_Inv s Hreach) as HInv.
  pose proof HInv as (Hok & _). apply state_ok_iff in Hok as (Hb & Hy & Hpiece).
  split; [done|]. split.
  - intros piece Hp. destruct (Hpiece piece Hp) as [_ Hin]. split.
    + intros i j Hocc. apply inRange_iff. by apply (proj1 (inBounds_iff _ _) Hin).
    + destruct (mergedBoard_spec (board s) piece (position s) Hb Hin)
        as (b' & Hm & Hb' & _). by exists b'.
  - intros ev rnd Hlt.
    destruct (dispatch_spec s ev rnd HInv Hlt) as (s' & Hs' & _ & Hrow & _).
    by exists s'.
Qed.

Lemma piece_always_on_board_witness :
  reachable fullRowsState
  /\ 0 <= y (position fullRowsState)
  /\ exists b', mergedBoard (board fullRowsState) O_piece (position fullRowsState) = Ok b'
       /\ board_ok b' = true.
Proof.
  split; [apply fullRowsState_reachable|].
  destruct (piece_always_on_board fullRowsState fullRowsState_reachable)
    as (Hy & Hpiece & _).
  split; [exact Hy|]. apply (Hpiece O_piece). vm_compute. reflexivity.
Defined.


(** * Further properties of [checkLines] *)

Lemma countComplete_app (b1 b2 : Board) :
  countComplete (b1 ++ b2) = (countComplete b1 + countComplete b2)%nat.
Proof.
  induction b1 as [|row b1 IH]; [done|].
  cbn. destruct (complete row); cbn; lia.
Qed.

Lemma countComplete_empty_rows (n : nat) :
  countComplete (replicate n (replicate (Z.to_nat BOARD_WIDTH) Zero)) = 0%nat.
Proof. induction n as [|n IH]; [done|]. exact IH. Qed.

Lemma countComplete_removeComplete (b : Board) :
  countComplete (removeComplete b) = 0%nat.
Proof.
  induction b as [|row b IH]; [done|].
  cbn. destruct (complete row) eqn:Hrow; [done|]. cbn. by rewrite Hrow.
Qed.

Lemma unshiftRows_fill (newBoard : Board) :
  unshiftRows (Z.to_nat (BOARD_HEIGHT - Z.of_nat (length newBoard))) newBoard
  = replicate (Z.to_nat BOARD_HEIGHT - length newBoard)
      (replicate (Z.to_nat BOARD_WIDTH) Zero) ++ newBoard.
Proof.
  destruct (decide (length newBoard <= Z.to_nat BOARD_HEIGHT)%nat) as [Hle|Hgt].
  - replace (Z.to_nat (BOARD_HEIGHT - Z.of_nat (length newBoard)))
      with (Z.to_nat BOARD_HEIGHT - length newBoard)%nat by lia.
    apply unshiftRows_replicate. lia.
  - replace (Z.to_nat (BOARD_HEIGHT - Z.of_nat (length newBoard))) with 0%nat by lia.
    by replace (Z.to_nat BOARD_HEIGHT - length newBoard)%nat with 0%nat by lia.
Qed.

(** X1. A second [checkLines] on the state a first one produced changes
    nothing: no row of the cleared board is complete, the board stays and
    the score is not raised again. *)
Theorem checkLines_idempotent (s : State) :
  length (board s) = Z.to_nat BOARD_HEIGHT ->
  let s1 := applyUpdates s (checkLines s) in
  countComplete (board s1) = 0%nat
  /\ applyUpdates s1 (checkLines s1) = s1.
Proof.
  intros Hlen s1.
  destruct (clearedBoard_spec (board s) Hlen) as [Hb Hk].
  assert (Hb1 : board s1 = clearedBoard (board s)) by done.
  assert (Hzero : countComplete (board s1) = 0%nat).
  { rewrite Hb1, Hb, countComplete_app, countComplete_empty_rows,
      countComplete_removeComplete. done. }
  split; [exact Hzero|].
  assert (Hlen1 : length (board s1) = Z.to_nat BOARD_HEIGHT).
  { pose proof (length_removeComplete (board s)).
    rewrite Hb1, Hb, length_app, length_replicate. lia. }
  destruct (clearedBoard_spec (board s1) Hlen1) as [Hb' Hk'].
  unfold checkLines at 1. cbn [applyUpdates fold_left applyUpdate].
  cbn [board currentPiece position gameOver score].
  rewrite Hb', Hk', Hzero, (removeComplete_none _ Hzero). cbn [replicate app].
  rewrite Z.mul_0_l, Z.add_0_r. apply state_eta.
Qed.

Lemma checkLines_idempotent_witness :
  length (board twoLinesState) = Z.to_nat BOARD_HEIGHT
  /\ applyUpdates (applyUpdates twoLinesState (checkLines twoLinesState))
       (checkLines (applyUpdates twoLinesState (checkLines twoLinesState)))
     = applyUpdates twoLinesState (checkLines twoLinesState).
Proof.
  split; [reflexivity|].
  exact (proj2 (checkLines_idempotent twoLinesState eq_refl)).
Defined.

(** X2. [checkLines] takes the number of cleared lines from the height
    constant, not from the board it is given.  For every board it keeps the
    rows with an empty square, puts on top the rows missing to
    [BOARD_HEIGHT] (none when more are kept) and adds to the score 100
    times [BOARD_HEIGHT] minus the number of kept rows: a board short of
    rows is padded and scored as if the missing rows had been cleared, and
    a board with more than [BOARD_HEIGHT] incomplete rows is not cut and
    the score goes down. *)
Theorem checkLines_counts_from_height (s : State) :
  let kept := List.filter hasZero (board s) in
  let s' := applyUpdates s (checkLines s) in
  board s' = replicate (Z.to_nat BOARD_HEIGHT - length kept)
               (replicate (Z.to_nat BOARD_WIDTH) Zero) ++ kept
  /\ score s' = score s + 100 * (BOARD_HEIGHT - Z.of_nat (length kept))
  /\ ((length (board s) < Z.to_nat BOARD_HEIGHT)%nat ->
      length (board s') = Z.to_nat BOARD_HEIGHT
      /\ score s' >= score s + 100 * (BOARD_HEIGHT - Z.of_nat (length (board s))))
  /\ ((Z.to_nat BOARD_HEIGHT < length kept)%nat ->
      board s' = kept /\ score s' < score s).
Proof.
  intros kept s'.
  assert (Hb : board s' = replicate (Z.to_nat BOARD_HEIGHT - length kept)
                            (replicate (Z.to_nat BOARD_WIDTH) Zero) ++ kept).
  { subst s' kept. cbn. unfold clearedBoard. apply unshiftRows_fill. }
  assert (Hs : score s' = score s + 100 * (BOARD_HEIGHT - Z.of_nat (length kept))).
  { subst s' kept. cbn. unfold linesCleared. lia. }
  assert (Hkept : (length kept <= length (board s))%nat).
  { subst kept. rewrite filter_hasZero.
    pose proof (length_removeComplete (board s)). lia. }
  split; [exact Hb|]. split; [exact Hs|]. split.
  - intros Hshort. split.
    + rewrite Hb, length_app, length_replicate. lia.
    + rewrite Hs. lia.
  - intros Hlong. split.
    + rewrite Hb. by replace (Z.to_nat BOARD_HEIGHT - length kept)%nat with 0%nat by lia.
    + rewrite Hs. unfold BOARD_HEIGHT in *. lia.
Qed.

(** * Further properties of [mergePieceToBoard] *)

Lemma assignCell_length (nb nb' : Board) (boardY boardX : Z) (v : Cell) :
  assignCell nb boardY boardX v = Ok nb' -> length nb' = length nb.
Proof.
  unfold assignCell. destruct (js_get nb boardY); [|discriminate].
  intros [= <-]. apply length_insert.
Qed.

Lemma merge_row_length (c : string) (cells : list Z) (nb nb' : Board) (x0 posX boardY : Z) :
  merge_row nb cells x0 posX boardY c = Ok nb' -> length nb' = length nb.
Proof.
  revert nb x0. induction cells as [|v cells IH]; intros nb x0; cbn [merge_row].
  - by intros [= <-].
  - destruct (truthy v); [|apply IH].
    destruct (assignCell nb boardY (posX + x0) (Color c)) as [nb1|] eqn:H1;
      run_bind; [|discriminate].
    intros Hrest. rewrite (IH _ _ Hrest). by apply assignCell_length in H1.
Qed.

Lemma merge_row_throws (c : string) (cells : list Z) (nb : Board) (x0 posX boardY : Z) :
  (exists (j : nat) v, cells !! j = Some v /\ truthy v = true) ->
  ~ (0 <= boardY < Z.of_nat (length nb)) ->
  merge_row nb cells x0 posX boardY c = TypeError.
Proof.
  intros Hex Hout.
  assert (Hget : js_get nb boardY = None).
  { unfold js_get. destruct (Z.ltb_spec boardY 0); [done|].
    apply lookup_ge_None. lia. }
  revert x0. induction cells as [|v cells IH]; intros x0.
  - destruct Hex as (j & w & Hj & _). by rewrite lookup_nil in Hj.
  - cbn [merge_row]. destruct (truthy v) eqn:Hv.
    + unfold assignCell. by rewrite Hget.
    + apply IH. destruct Hex as (j & w & Hj & Hw). destruct j as [|j].
      * cbn in Hj. congruence.
      * by exists j, w.
Qed.

Lemma merge_rows_throws (c : string) (rows : list (list Z)) (nb : Board) (y0 posX posY : Z) :
  (exists i j : nat, occupied rows i j = true
     /\ ~ (0 <= posY + (y0 + Z.of_nat i) < Z.of_nat (length nb))) ->
  merge_rows nb rows y0 posX posY c = TypeError.
Proof.
  revert nb y0. induction rows as [|cells rows IH]; intros nb y0 (i & j & Hocc & Hout).
  - unfold occupied in Hocc. by rewrite lookup_nil in Hocc.
  - cbn [merge_rows]. destruct i as [|i].
    + rewrite merge_row_throws; [done| |].
      * unfold occupied in Hocc. cbn in Hocc.
        destruct (cells !! j) as [v|] eqn:Hj; [|discriminate]. by exists j, v.
      * intros Hin. apply Hout. lia.
    + destruct (merge_row nb cells 0 posX (posY + y0) c) as [nb1|] eqn:H1;
        run_bind; [|done].
      apply IH. exists i, j. split; [exact Hocc|].
      rewrite (merge_row_length _ _ _ _ _ _ _ H1). intros Hin. apply Hout. lia.
Qed.

(** X3. When an occupied square of the piece lies above the first or below
    the last row of the board, [mergePieceToBoard] throws a TypeError, on
    the assignment to a row that is [undefined], and passes no board to
    [setBoard]. *)
Theorem mergePieceToBoard_throws_off_board (s : State) (piece : Tetromino) :
  currentPiece s = Some piece ->
  (exists i j : nat, occupied (shape piece) i j = true
     /\ ~ (0 <= y (position s) + Z.of_nat i < Z.of_nat (length (board s)))) ->
  mergePieceToBoard s = TypeError.
Proof.
  intros Hp (i & j & Hocc & Hout). unfold mergePieceToBoard, mergedBoard. rewrite Hp.
  rewrite merge_rows_throws; [done|]. exists i, j. split; [exact Hocc|].
  intros Hin. apply Hout. lia.
Qed.

Lemma mergePieceToBoard_throws_off_board_witness :
  mergePieceToBoard (withPosition restingState sunkPosition) = TypeError.
Proof.
  apply (mergePieceToBoard_throws_off_board _ O_piece); [reflexivity|].
  exists 1%nat, 0%nat. split; [reflexivity|]. vm_compute. intros [_ H]. discriminate H.
Defined.

Lemma js_set_lookup {A} (hole : A) (arr : list A) (i : Z) (v : A) :
  0 <= i -> js_set hole arr i v !! Z.to_nat i = Some v.
Proof.
  intros Hi. unfold js_set. destruct (Z.ltb_spec i 0); [lia|].
  destruct (Nat.ltb_spec (Z.to_nat i) (length arr)).
  - by apply list_lookup_insert_eq.
  - rewrite lookup_app_r by lia.
    rewrite lookup_app_r by (rewrite length_replicate; lia).
    rewrite length_replicate.
    by replace (Z.to_nat i - length arr - (Z.to_nat i - length arr))%nat with 0%nat by lia.
Qed.

Lemma js_set_keeps {A} (hole : A) (arr : list A) (i : Z) (v a : A) (j : nat) :
  arr !! j = Some a -> j <> Z.to_nat i \/ i < 0 ->
  js_set hole arr i v !! j = Some a.
Proof.
  intros Hj Hne. unfold js_set. destruct (Z.ltb_spec i 0); [done|].
  destruct Hne as [Hne|?]; [|lia].
  destruct (Nat.ltb_spec (Z.to_nat i) (length arr)).
  - by rewrite list_lookup_insert_ne.
  - by apply lookup_app_l_Some.
Qed.

Lemma assignCell_paints (nb nb' : Board) (boardY boardX : Z) (c : string) :
  assignCell nb boardY boardX (Color c) = Ok nb' ->
  (0 <= boardX -> cellAt nb' boardX boardY = Some (Color c))
  /\ (forall X Y, cellAt nb X Y = Some (Color c) -> cellAt nb' X Y = Some (Color c)).
Proof.
  unfold assignCell. destruct (js_get nb boardY) as [row|] eqn:Hrow; [|discriminate].
  intros [= <-]. apply js_get_Some in Hrow as [Hy Hrow].
  pose proof (lookup_lt_Some _ _ _ Hrow) as Hlt.
  assert (Hnew : js_get (<[Z.to_nat boardY := js_set Undef row boardX (Color c)]> nb) boardY
                 = Some (js_set Undef row boardX (Color c))).
  { apply js_get_Some. split; [done|]. by apply list_lookup_insert_eq. }
  split.
  - intros Hx. unfold cellAt. rewrite Hnew. cbn.
    apply js_get_Some. split; [done|]. by apply js_set_lookup.
  - intros X Y Hc. unfold cellAt in *.
    destruct (js_get nb Y) as [row'|] eqn:Hrow'; [|discriminate]. cbn in Hc.
    apply js_get_Some in Hrow' as [HY Hrow']. apply js_get_Some in Hc as [HX Hc].
    destruct (decide (Y = boardY)) as [->|Hne].
    + rewrite Hnew. cbn. apply js_get_Some. split; [done|].
      rewrite Hrow in Hrow'. injection Hrow' as <-.
      destruct (decide (X = boardX)) as [->|Hnx]; [by apply js_set_lookup|].
      apply js_set_keeps; [done|].
      destruct (decide (boardX < 0)); [by right|left; lia].
    + assert (Hkeep : js_get (<[Z.to_nat boardY := js_set Undef row boardX (Color c)]> nb) Y
                      = Some row').
      { apply js_get_Some. split; [done|]. rewrite list_lookup_insert_ne; [done|lia]. }
      rewrite Hkeep. cbn. by apply js_get_Some.
Qed.

Lemma merge_row_paints (c : string) (cells : list Z) (nb nb' : Board) (x0 posX boardY : Z) :
  merge_row nb cells x0 posX boardY c = Ok nb' ->
  (forall X, hitRow cells x0 posX X -> 0 <= X -> cellAt nb' X boardY = Some (Color c))
  /\ (forall X Y, cellAt nb X Y = Some (Color c) -> cellAt nb' X Y = Some (Color c)).
Proof.
  revert nb x0. induction cells as [|v cells IH]; intros nb x0; cbn [merge_row].
  - intros [= <-]. split; [|done]. intros X (j & w & Hj & _). by rewrite lookup_nil in Hj.
  - destruct (truthy v) eqn:Hv.
    + destruct (assignCell nb boardY (posX + x0) (Color c)) as [nb1|] eqn:H1;
        run_bind; [|discriminate].
      intros Hrest. destruct (IH _ _ Hrest) as [Hhit Hkeep].
      destruct (assignCell_paints _ _ _ _ _ H1) as [Hset Hkeep1].
      split; [|by auto].
      intros X (j & w & Hj & Hw & ->) HX. destruct j as [|j].
      * apply Hkeep. replace (posX + (x0 + Z.of_nat 0)) with (posX + x0) in * by lia.
        by apply Hset.
      * apply Hhit; [|done]. exists j, w. split; [done|]. split; [done|]. lia.
    + intros Hrest. destruct (IH _ _ Hrest) as [Hhit Hkeep]. split; [|done].
      intros X (j & w & Hj & Hw & ->) HX. destruct j as [|j].
      * cbn in Hj. congruence.
      * apply Hhit; [|done]. exists j, w. split; [done|]. split; [done|]. lia.
Qed.

Lemma merge_rows_paints (c : string) (rows : list (list Z)) (nb nb' : Board) (y0 posX posY : Z) :
  merge_rows nb rows y0 posX posY c = Ok nb' ->
  (forall X Y, hitRows rows y0 posX posY X Y -> 0 <= X ->
     cellAt nb' X Y = Some (Color c))
  /\ (forall X Y, cellAt nb X Y = Some (Color c) -> cellAt nb' X Y = Some (Color c)).
Proof.
  revert nb y0. induction rows as [|cells rows IH]; intros nb y0; cbn [merge_rows].
  - intros [= <-]. split; [|done]. intros X Y (i & j & Hocc & _).
    unfold occupied in Hocc. by rewrite lookup_nil in Hocc.
  - destruct (merge_row nb cells 0 posX (posY + y0) c) as [nb1|] eqn:H1;
      run_bind; [|discriminate].
    intros Hrest. destruct (IH _ _ Hrest) as [Hhit Hkeep].
    destruct (merge_row_paints _ _ _ _ _ _ _ H1) as [Hhit1 Hkeep1].
    split; [|by auto].
    intros X Y HXY HX. apply hitRows_cons in HXY as [[-> Hrow]|HXY].
    + apply Hkeep. by apply Hhit1.
    + by apply Hhit.
Qed.

Lemma merge_rows_length (c : string) (rows : list (list Z)) (nb nb' : Board) (y0 posX posY : Z) :
  merge_rows nb rows y0 posX posY c = Ok nb' -> length nb' = length nb.
Proof.
  revert nb y0. induction rows as [|cells rows IH]; intros nb y0; cbn [merge_rows].
  - by intros [= <-].
  - destruct (merge_row nb cells 0 posX (posY + y0) c) as [nb1|] eqn:H1;
      run_bind; [|discriminate].
    intros Hrest. rewrite (IH _ _ Hrest). by apply merge_row_length in H1.
Qed.

(** X4. On any board, a merge that returns has kept the number of rows and
    has written the piece's color to every occupied square whose column is
    not negative, also past the end of a row: JavaScript extends the row,
    so a piece that sticks out to the right leaves a board that no longer
    has [BOARD_WIDTH] columns. *)
Theorem mergedBoard_paints_or_widens (b b' : Board) (piece : Tetromino) (pos : Position) :
  mergedBoard b piece pos = Ok b' ->
  length b' = length b
  /\ (forall i j : nat, occupied (shape piece) i j = true ->
        0 <= x pos + Z.of_nat j ->
        cellAt b' (x pos + Z.of_nat j) (y pos + Z.of_nat i) = Some (Color (color piece)))
  /\ ((exists i j : nat, occupied (shape piece) i j = true
         /\ BOARD_WIDTH <= x pos + Z.of_nat j) ->
      board_ok b' = false).
Proof.
  intros Hm. unfold mergedBoard in Hm.
  destruct (merge_rows_paints _ _ _ _ _ _ _ Hm) as [Hhit _].
  assert (Hcells : forall i j : nat, occupied (shape piece) i j = true ->
            0 <= x pos + Z.of_nat j ->
            cellAt b' (x pos + Z.of_nat j) (y pos + Z.of_nat i)
            = Some (Color (color piece))).
  { intros i j Hocc Hx. apply Hhit; [|done]. exists i, j. split; [done|]. lia. }
  split; [by apply merge_rows_length in Hm|]. split; [exact Hcells|].
  intros (i & j & Hocc & Hwide).
  destruct (board_ok b') eqn:Hok; [|done]. exfalso.
  apply board_ok_iff in Hok as [_ Hrows].
  assert (Hx : 0 <= x pos + Z.of_nat j) by (unfold BOARD_WIDTH in *; lia).
  specialize (Hcells i j Hocc Hx). unfold cellAt in Hcells.
  destruct (js_get b' (y pos + Z.of_nat i)) as [row|] eqn:Hrow; [|discriminate].
  cbn in Hcells. apply js_get_Some in Hrow as [_ Hrow].
  apply js_get_Some in Hcells as [_ Hcell].
  apply lookup_lt_Some in Hcell. destruct (Hrows _ _ Hrow) as [Hw _]. lia.
Qed.

Lemma mergedBoard_paints_or_widens_witness :
  exists b', mergedBoard createEmptyBoard O_piece overhangPosition = Ok b'
    /\ cellAt b' 10 19 = Some (Color "#ffd800")
    /\ board_ok b' = false.
Proof.
  destruct (mergedBoard createEmptyBoard O_piece overhangPosition) as [b'|] eqn:Hm;
    [|vm_compute in Hm; discriminate Hm].
  exists b'. split; [reflexivity|].
  destruct (mergedBoard_paints_or_widens _ _ _ _ Hm) as (_ & Hcells & Hwide).
  split.
  - apply (Hcells 1%nat 1%nat); [reflexivity|]. vm_compute. discriminate.
  - apply Hwide. exists 1%nat, 1%nat. split; [reflexivity|]. vm_compute. discriminate.
Defined.

(** X5. After a piece that lies on the board has been merged, a move that
    would put an occupied square of any piece on one of the merged squares
    is rejected; so the merged piece itself, if it has an occupied square,
    is no longer valid where it stood. *)
Theorem merged_squares_block_moves (b b' : Board) (piece : Tetromino) (pos : Position) :
  board_ok b = true ->
  inBounds (shape piece) pos = true ->
  mergedBoard b piece pos = Ok b' ->
  (forall (other : Tetromino) (newX newY : Z) (i j : nat),
     occupied (shape other) i j = true ->
     covers piece pos (newX + Z.of_nat j) (newY + Z.of_nat i) = true ->
     isValidMove b' other newX newY = Ok false)
  /\ ((exists i j : nat, occupied (shape piece) i j = true) ->
      isValidMove b' piece (x pos) (y pos) = Ok false).
Proof.
  intros Hb Hin Hm.
  destruct (mergedBoard_spec b piece pos Hb Hin) as (b2 & Hb2 & Hok & Hcells).
  rewrite Hm in Hb2. injection Hb2 as <-.
  assert (Hblock : forall (other : Tetromino) (newX newY : Z) (i j : nat),
            occupied (shape other) i j = true ->
            covers piece pos (newX + Z.of_nat j) (newY + Z.of_nat i) = true ->
            isValidMove b' other newX newY = Ok false).
  { intros other newX newY i j Hocc Hcov.
    destruct (isValidMove_rows_spec b' Hok (shape other) 0 newX newY)
      as (ok & Hmove & Hiff).
    unfold isValidMove. rewrite Hmove. f_equal. apply Hiff.
    exists i, j. split; [done|]. right. right. right.
    rewrite Z.add_0_l. split.
    - apply covers_iff in Hcov as (i' & j' & Hocc' & HX & HY).
      pose proof (proj1 (inBounds_iff _ _) Hin i' j' Hocc') as Hr.
      apply inRange_iff in Hr. lia.
    - exists (color piece). by rewrite Hcells, Hcov. }
  split; [exact Hblock|].
  intros (i & j & Hocc). apply (Hblock piece _ _ i j Hocc).
  apply covers_iff. exists i, j. split; [done|]. lia.
Qed.

Lemma merged_squares_block_moves_witness :
  board_ok createEmptyBoard = true
  /\ inBounds (shape O_piece) (position restingState) = true
  /\ exists b', mergedBoard createEmptyBoard O_piece (position restingState) = Ok b'
       /\ isValidMove b' O_piece 4 18 = Ok false
       /\ isValidMove b' I_piece 2 19 = Ok false.
Proof.
  split; [reflexivity|]. split; [reflexivity|].
  destruct (mergedBoard createEmptyBoard O_piece (position restingState)) as [b'|] eqn:Hm;
    [|vm_compute in Hm; discriminate Hm].
  exists b'. split; [reflexivity|].
  destruct (merged_squares_block_moves createEmptyBoard b' O_piece
              (position restingState) eq_refl eq_refl Hm) as [Hblock Hself].
  split.
  - apply Hself. exists 0%nat, 0%nat. reflexivity.
  - apply (Hblock I_piece 2 19 0%nat 2%nat); reflexivity.
Defined.

(** * Further properties of [isValidMove] *)

Section AnyBoard.
Variable b : Board.
Hypothesis Htall : BOARD_HEIGHT <= Z.of_nat (length b).

Lemma collides_any boardX boardY :
  exists hit, collides b boardX boardY = Ok hit
              /\ (hit = true <-> blockedAny b boardX boardY).
Proof using Htall.
  unfold collides, blockedAny.
  destruct (Z.ltb_spec boardX 0); cbn [orb].
  { exists true. split; [done|]. split; [intros _; lia|done]. }
  destruct (Z.geb_spec boardX BOARD_WIDTH); cbn [orb].
  { exists true. split; [done|]. split; [intros _; lia|done]. }
  destruct (Z.geb_spec boardY BOARD_HEIGHT); cbn [orb].
  { exists true. split; [done|]. split; [intros _; lia|done]. }
  destruct (Z.geb_spec boardY 0).
  - destruct (js_get_in_range b boardY) as [row Hrow]; [lia|].
    unfold cellAt. rewrite Hrow. cbn.
    destruct (js_get row boardX) as [[|c|]|] eqn:Hcell.
    + exists false. split; [done|]. split; [discriminate|].
      intros [?|[?|[?|[_ Hne]]]]; try lia. done.
    + exists true. split; [done|]. split; [|done]. intros _.
      right. right. right. split; [lia|discriminate].
    + exists true. split; [done|]. split; [|done]. intros _.
      right. right. right. split; [lia|discriminate].
    + exists true. split; [done|]. split; [|done]. intros _.
      right. right. right. split; [lia|discriminate].
  - exists false. split; [done|]. split; [discriminate|].
    intros [?|[?|[?|[? _]]]]; lia.
Qed.

Lemma isValidMove_row_any cells x0 newX boardY :
  exists ok, isValidMove_row b cells x0 newX boardY = Ok ok
    /\ (ok = false <->
        exists (j : nat) v, cells !! j = Some v /\ truthy v = true
                    /\ blockedAny b (newX + (x0 + Z.of_nat j)) boardY).
Proof using Htall.
  revert x0. induction cells as [|v cells IH]; intros x0; cbn [isValidMove_row].
  - exists true. split; [done|]. split; [discriminate|].
    intros (j & w & Hj & _). by rewrite lookup_nil in Hj.
  - destruct (IH (x0 + 1)) as (ok & Hok & Hiff).
    assert (Hshift : forall j : nat, x0 + Z.of_nat (S j) = x0 + 1 + Z.of_nat j) by lia.
    destruct (truthy v) eqn:Hv.
    + destruct (collides_any (newX + x0) boardY) as (hit & Hhit & Hhiff).
      rewrite Hhit. run_bind. destruct hit.
      * exists false. split; [done|]. split; [|done]. intros _.
        exists 0%nat, v. split; [done|]. split; [done|].
        rewrite Z.add_0_r. by apply Hhiff.
      * exists ok. split; [done|]. rewrite Hiff.
        split; intros (j & w & Hj & Hw & Hbl).
        -- exists (S j), w. rewrite Hshift. auto.
        -- destruct j as [|j]; [|exists j, w; rewrite <- Hshift; auto].
           rewrite Z.add_0_r in Hbl. apply Hhiff in Hbl. discriminate.
    + exists ok. split; [done|]. rewrite Hiff.
      split; intros (j & w & Hj & Hw & Hbl).
      * exists (S j), w. rewrite Hshift. auto.
      * destruct j as [|j]; [|exists j, w; rewrite <- Hshift; auto].
        cbn in Hj. congruence.
Qed.

Lemma isValidMove_rows_any rows y0 newX newY :
  exists ok, isValidMove_rows b rows y0 newX newY = Ok ok
    /\ (ok = false <->
        exists i j : nat, occupied rows i j = true
            /\ blockedAny b (newX + Z.of_nat j) (newY + (y0 + Z.of_nat i))).
Proof using Htall.
  revert y0. induction rows as [|cells rows IH]; intros y0; cbn [isValidMove_rows].
  - exists true. split; [done|]. split; [discriminate|].
    intros (i & j & Hocc & _). unfold occupied in Hocc. by rewrite lookup_nil in Hocc.
  - destruct (isValidMove_row_any cells 0 newX (newY + y0)) as (ok1 & Hok1 & Hiff1).
    destruct (IH (y0 + 1)) as (ok & Hok & Hiff).
    assert (Hshift : forall i : nat, y0 + Z.of_nat (S i) = y0 + 1 + Z.of_nat i) by lia.
    rewrite Hok1. run_bind. destruct ok1.
    + exists ok. split; [done|]. rewrite Hiff.
      split; intros (i & j & Hocc & Hbl).
      * exists (S i), j. rewrite Hshift. auto.
      * destruct i as [|i]; [|exists i, j; rewrite <- Hshift; auto].
        assert (Hf : true = false); [|discriminate].
        apply Hiff1. unfold occupied in Hocc. cbn in Hocc.
        destruct (cells !! j) as [v|] eqn:Hj; [|discriminate].
        exists j, v. split; [done|]. split; [done|].
        by rewrite !Z.add_0_r, Z.add_0_l in *.
    + exists false. split; [done|]. split; [|done]. intros _.
      destruct Hiff1 as [Hiff1 _]. destruct (Hiff1 eq_refl) as (j & v & Hj & Hv & Hbl).
      exists 0%nat, j. split.
      * unfold occupied. cbn. by rewrite Hj.
      * by rewrite !Z.add_0_r, Z.add_0_l in *.
Qed.

End AnyBoard.

(** X6. [isValidMove] does not throw on any board that has at least
    [BOARD_HEIGHT] rows, whatever the rows hold and however long they are:
    a square that is missing from a short row, or holds anything but [0],
    counts as occupied.  The move is rejected exactly when some occupied
    square of the shape is out of bounds or lands, at a row [>= 0], on a
    square that is not a [0]. *)
Theorem isValidMove_on_tall_board (b : Board) (piece : Tetromino) (newX newY : Z) :
  BOARD_HEIGHT <= Z.of_nat (length b) ->
  exists ok, isValidMove b piece newX newY = Ok ok
    /\ (ok = false <->
        exists i j : nat, occupied (shape piece) i j = true
          /\ blockedAny b (newX + Z.of_nat j) (newY + Z.of_nat i)).
Proof.
  intros Htall.
  destruct (isValidMove_rows_any b Htall (shape piece) 0 newX newY) as (ok & Hok & Hiff).
  exists ok. split; [done|]. rewrite Hiff.
  split; intros (i & j & Hocc & Hbl); exists i, j; (split; [done|]);
    by rewrite Z.add_0_l in *.
Qed.

Lemma isValidMove_on_tall_board_witness :
  BOARD_HEIGHT <= Z.of_nat (length raggedBoard)
  /\ isValidMove raggedBoard O_piece 4 0 = Ok false
  /\ cellAt raggedBoard 4 0 = None.
Proof.
  split; [vm_compute; discriminate|].
  destruct (isValidMove_on_tall_board raggedBoard O_piece 4 0) as (ok & Hok & Hiff);
    [vm_compute; discriminate|].
  split; [|reflexivity]. rewrite Hok. f_equal. apply Hiff.
  exists 0%nat, 0%nat. split; [reflexivity|]. right. right. right.
  split; [vm_compute; discriminate|]. vm_compute. discriminate.
Defined.

Lemma isValidMove_row_free (b : Board) (cells : list Z) (x0 newX boardY : Z) :
  existsb truthy cells = false ->
  isValidMove_row b cells x0 newX boardY = Ok true.
Proof.
  revert x0. induction cells as [|v cells IH]; intros x0; [done|].
  cbn. intros Hnone. apply orb_false_elim in Hnone as [-> Hnone]. by apply IH.
Qed.

Lemma isValidMove_row_throws (b : Board) (cells : list Z) (x0 newX boardY : Z) :
  existsb truthy cells = true ->
  (forall (j : nat) v, cells !! j = Some v -> truthy v = true ->
     collides b (newX + (x0 + Z.of_nat j)) boardY = TypeError) ->
  isValidMove_row b cells x0 newX boardY = TypeError.
Proof.
  revert x0. induction cells as [|v cells IH]; intros x0 Hsome Hall; [done|].
  cbn [isValidMove_row]. destruct (truthy v) eqn:Hv.
  - specialize (Hall 0%nat v eq_refl Hv). rewrite Z.add_0_r in Hall. by rewrite Hall.
  - cbn in Hsome. rewrite Hv in Hsome. apply IH; [done|].
    intros j w Hj Hw. specialize (Hall (S j) w Hj Hw).
    by replace (x0 + 1 + Z.of_nat j) with (x0 + Z.of_nat (S j)) by lia.
Qed.

(** X7. On a board that is short of rows [isValidMove] throws a TypeError
    when the shape has an occupied square and every occupied square lands
    on a column of the board and on a row between the board's last row and
    [BOARD_HEIGHT]: the board row it reads there is [undefined]. *)
Theorem isValidMove_throws_below_short_board
  (b : Board) (piece : Tetromino) (newX newY : Z) :
  (exists i j : nat, occupied (shape piece) i j = true) ->
  (forall i j : nat, occupied (shape piece) i j = true ->
     0 <= newX + Z.of_nat j < BOARD_WIDTH
     /\ 0 <= newY + Z.of_nat i
     /\ Z.of_nat (length b) <= newY + Z.of_nat i < BOARD_HEIGHT) ->
  isValidMove b piece newX newY = TypeError.
Proof.
  unfold isValidMove. generalize (shape piece) as rows. intros rows.
  assert (Hgen : forall y0,
    (exists i j : nat, occupied rows i j = true) ->
    (forall i j : nat, occupied rows i j = true ->
       0 <= newX + Z.of_nat j < BOARD_WIDTH
       /\ 0 <= newY + (y0 + Z.of_nat i)
       /\ Z.of_nat (length b) <= newY + (y0 + Z.of_nat i) < BOARD_HEIGHT) ->
    isValidMove_rows b rows y0 newX newY = TypeError).
  { induction rows as [|cells rows IH]; intros y0 (i & j & Hocc) Hall.
    { unfold occupied in Hocc. by rewrite lookup_nil in Hocc. }
    cbn [isValidMove_rows]. destruct (existsb truthy cells) eqn:Hcells.
    - rewrite isValidMove_row_throws; [done|done|].
      intros j' v Hj' Hv.
      assert (Hocc' : occupied (cells :: rows) 0 j' = true).
      { unfold occupied. cbn. by rewrite Hj'. }
      destruct (Hall 0%nat j' Hocc') as (Hx & Hy0 & Hy).
      rewrite Z.add_0_r in Hy0, Hy. rewrite Z.add_0_l.
      unfold collides.
      destruct (Z.ltb_spec (newX + Z.of_nat j') 0); [lia|].
      destruct (Z.geb_spec (newX + Z.of_nat j') BOARD_WIDTH); [lia|].
      destruct (Z.geb_spec (newY + y0) BOARD_HEIGHT); [lia|]. cbn [orb].
      destruct (Z.geb_spec (newY + y0) 0); [|lia].
      assert (Hnone : js_get b (newY + y0) = None).
      { unfold js_get. destruct (Z.ltb_spec (newY + y0) 0); [done|].
        apply lookup_ge_None. lia. }
      by rewrite Hnone.
    - rewrite isValidMove_row_free by done. run_bind.
      apply IH.
      + destruct i as [|i]; [|by exists i, j].
        unfold occupied in Hocc. cbn in Hocc.
        destruct (cells !! j) as [v|] eqn:Hj; [|discriminate].
        assert (Hin : existsb truthy cells = true).
        { apply existsb_exists. exists v. split; [|done].
          apply list_elem_of_In, list_elem_of_lookup. eauto. }
        congruence.
      + intros i' j' Hocc'. specialize (Hall (S i') j' Hocc').
        by replace (y0 + 1 + Z.of_nat i') with (y0 + Z.of_nat (S i')) by lia. }
  intros Hex Hall. apply Hgen; [done|].
  intros i j Hocc. rewrite Z.add_0_l. by apply Hall.
Qed.

Lemma isValidMove_throws_below_short_board_witness :
  isValidMove shortBoard O_piece 4 5 = TypeError.
Proof.
  apply isValidMove_throws_below_short_board.
  - exists 0%nat, 0%nat. reflexivity.
  - intros i j Hocc. apply occupied_lt in Hocc as [Hi Hj].
    destruct i as [|[|i]]; [| |cbn in Hi; lia];
      (destruct j as [|[|j]]; [| |cbn in Hj; lia]); vm_compute; repeat split; discriminate.
Defined.


Lemma createEmptyBoard_cells (X Y : Z) (cell : Cell) :
  cellAt createEmptyBoard X Y = Some cell -> cell = Zero.
Proof.
  unfold cellAt. destruct (js_get createEmptyBoard Y) as [row|] eqn:Hrow; [|discriminate].
  cbn. apply js_get_Some in Hrow as [_ Hrow]. apply lookup_replicate in Hrow as [-> _].
  intros Hc. apply js_get_Some in Hc as [_ Hc]. by apply lookup_replicate in Hc as [-> _].
Qed.


Lemma tetromino_cells (rnd : nat) (piece : Tetromino) (i j : nat) :
  TETROMINOS !! rnd = Some piece ->
  occupied (shape piece) i j = true ->
  (i < 2)%nat /\ (j < 4)%nat.
Proof.
  intros Hp Hocc. apply occupied_lt in Hocc as [Hi Hj].
  do 7 (destruct rnd as [|rnd];
        [injection Hp as <-; cbn in Hi;
         split; [lia|];
         destruct i as [|[|i]]; cbn in Hj; lia|]).
  discriminate.
Qed.

(** X9. A new piece is valid where [spawnNewPiece] puts it whenever the
    squares of columns 4 to 7 in the two top rows of the board are empty:
    whichever of the seven tetrominoes is drawn, the game-over test can
    only fail at spawn if that window is obstructed. *)
Theorem spawn_valid_on_free_window (b : Board) (rnd : nat) (piece : Tetromino) :
  board_ok b = true ->
  TETROMINOS !! rnd = Some piece ->
  (forall X Y, 4 <= X < 8 -> 0 <= Y < 2 -> cellAt b X Y = Some Zero) ->
  isValidMove b piece (x spawnPosition) (y spawnPosition) = Ok true.
Proof.
  intros Hb Hp Hfree.
  destruct (isValidMove_rows_spec b Hb (shape piece) 0 (x spawnPosition) (y spawnPosition))
    as (ok & Hok & Hiff).
  unfold isValidMove. rewrite Hok. destruct ok; [done|]. exfalso.
  destruct Hiff as [Hex _]. destruct (Hex eq_refl) as (i & j & Hocc & Hbl).
  destruct (tetromino_cells rnd piece i j Hp Hocc) as [Hi Hj].
  unfold blocked, spawnPosition, BOARD_WIDTH, BOARD_HEIGHT in Hbl. cbn [x y] in Hbl.
  change (10 `div` 2 - 1) with 4 in Hbl.
  destruct Hbl as [?|[?|[?|[_ [c Hc]]]]]; try lia.
  rewrite Hfree in Hc by lia. discriminate.
Qed.

Lemma spawn_valid_on_free_window_witness :
  board_ok twoLinesBoard = true
  /\ TETROMINOS !! 2%nat = Some T_piece
  /\ isValidMove twoLinesBoard T_piece 4 0 = Ok true.
Proof.
  split; [reflexivity|]. split; [reflexivity|].
  apply (spawn_valid_on_free_window twoLinesBoard 2 T_piece); try reflexivity.
  intros X Y HX HY.
  assert (HXs : X = 4 \/ X = 5 \/ X = 6 \/ X = 7) by lia.
  assert (HYs : Y = 0 \/ Y = 1) by lia.
  destruct HXs as [->|[->|[->| ->]]]; destruct HYs as [->| ->]; reflexivity.
Defined.

(** * Further properties of the rotation *)

Lemma concat_zip_with_cons (l : list Z) (k : list (list Z)) :
  length l = length k -> concat (zip_with cons l k) ≡ₚ l ++ concat k.
Proof.
  revert k. induction l as [|a l IH]; intros [|r k] Hlen; try discriminate; [done|].
  cbn. constructor. rewrite (IH k) by (cbn in Hlen; lia).
  rewrite !app_assoc. apply Permutation_app_tail, Permutation_app_comm.
Qed.

Lemma concat_transpose (h w : nat) (m : list (list Z)) :
  rect h w m -> (0 < h)%nat -> concat (transpose m) ≡ₚ concat m.
Proof.
  revert h. induction m as [|row rest IH]; intros h [Hlen Hrows] Hh; [done|].
  assert (Hw0 : length row = w) by (by inversion Hrows).
  destruct rest as [|row2 rest].
  - cbn [transpose]. cbn [concat]. rewrite app_nil_r.
    clear. induction row as [|v row IH]; [done|]. cbn. by constructor.
  - assert (Hr : rect (length (row2 :: rest)) w (row2 :: rest)).
    { split; [done|by inversion Hrows]. }
    change (transpose (row :: row2 :: rest))
      with (zip_with cons row (transpose (row2 :: rest))).
    rewrite concat_zip_with_cons.
    + cbn [concat]. apply Permutation_app_head. apply (IH _ Hr). cbn. lia.
    + rewrite (transpose_columns _ w _ Hr) by (cbn; lia).
      by rewrite length_fmap, length_seq.
Qed.

Lemma concat_fmap_reverse (m : list (list Z)) : concat (reverse <$> m) ≡ₚ concat m.
Proof.
  induction m as [|row m IH]; [done|].
  cbn. by rewrite IH, reverse_Permutation.
Qed.

Lemma filter_length_Permutation (f : Z -> bool) (l k : list Z) :
  l ≡ₚ k -> length (List.filter f l) = length (List.filter f k).
Proof.
  induction 1 as [|a l k _ IH|a a' l|l k k' _ IH1 _ IH2]; cbn.
  - done.
  - destruct (f a); cbn; lia.
  - destruct (f a), (f a'); cbn; lia.
  - lia.
Qed.

(** X10. The rotation moves the entries of a rectangular matrix without
    adding or losing any: the entries of the rotated matrix are a
    permutation of those of the original, so a rotated piece has as many
    occupied squares as before. *)
Theorem rotateShape_permutes_entries (sh sh' : list (list Z)) :
  shape_ok sh = true ->
  rotateShape sh = Ok sh' ->
  concat sh' ≡ₚ concat sh
  /\ countOccupied sh' = countOccupied sh.
Proof.
  intros Hok Hrot. rewrite (rotateShape_transposeReverse _ Hok) in Hrot.
  injection Hrot as <-.
  apply shape_ok_rect in Hok as (h & w & Hh & Hw & Hr).
  assert (Hperm : concat (transposeReverse sh) ≡ₚ concat sh).
  { unfold transposeReverse. rewrite concat_fmap_reverse. by apply (concat_transpose h w). }
  split; [exact Hperm|]. by apply filter_length_Permutation.
Qed.

Lemma rotateShape_permutes_entries_witness :
  shape_ok (shape T_piece) = true
  /\ rotateShape (shape T_piece) = Ok [[0; 1]; [1; 1]; [0; 1]]
  /\ countOccupied [[0; 1]; [1; 1]; [0; 1]] = countOccupied (shape T_piece).
Proof.
  split; [reflexivity|]. split; [reflexivity|].
  apply (rotateShape_permutes_entries (shape T_piece)); reflexivity.
Defined.

(** * The rendered squares *)

Lemma cellColor_nonempty (c : string) : c <> ""%string -> cellColor (Color c) = Some c.
Proof. intros Hc. cbn. by apply String.eqb_neq in Hc as ->. Qed.

(** X11. The expression that colors a square never throws, whatever the
    state, the square and its coordinates: the two array reads it makes in
    the shape are guarded by the tests that precede them. *)
Theorem backgroundColor_never_throws (s : State) (cell : Cell) (cx cy : Z) :
  exists c, backgroundColor s cell cx cy = Ok c.
Proof.
  unfold backgroundColor. destruct (cellColor cell) as [c|]; [by eexists|].
  destruct (currentPiece s) as [piece|]; [|by eexists].
  destruct ((cy >=? y (position s))
            && (cy <? y (position s) + Z.of_nat (length (shape piece)))
            && (cx >=? x (position s))) eqn:Hguard; [|by eexists].
  apply andb_prop in Hguard as [Hguard Hx]. apply andb_prop in Hguard as [Hy1 Hy2].
  apply Z.geb_le in Hy1. apply Z.ltb_lt in Hy2.
  destruct (js_get_in_range (shape piece) 0) as [row0 Hrow0]; [lia|].
  rewrite Hrow0. destruct (cx <? _); [|by eexists].
  destruct (js_get_in_range (shape piece) (cy - y (position s))) as [row Hrow]; [lia|].
  rewrite Hrow. destruct (js_get row _) as [v|]; [|by eexists].
  destruct (truthy v); by eexists.
Qed.

Lemma backgroundColor_rect (s : State) (cell : Cell) (cx cy : Z) :
  (forall piece, currentPiece s = Some piece -> shape_ok (shape piece) = true) ->
  backgroundColor s cell cx cy
  = Ok match cellColor cell with
       | Some c => c
       | None =>
           match currentPiece s with
           | Some piece =>
               if covers piece (position s) cx cy then color piece else "white"%string
           | None => "white"%string
           end
       end.
Proof.
  intros Hshape. unfold backgroundColor. destruct (cellColor cell) as [c|]; [done|].
  destruct (currentPiece s) as [piece|]; [|done].
  specialize (Hshape piece eq_refl).
  apply shape_ok_rect in Hshape as (h & w & Hh & Hw & Hlen & Hrows).
  unfold covers, occupied.
  destruct (Z.geb_spec cy (y (position s))) as [Hy1|Hy1]; cbn [andb];
    [|destruct (Z.leb_spec (y (position s)) cy); [lia|by rewrite andb_false_r]].
  destruct (Z.leb_spec (y (position s)) cy) as [_|?]; [|lia].
  destruct (Z.ltb_spec cy (y (position s) + Z.of_nat (length (shape piece)))) as [Hy2|Hy2];
    cbn [andb].
  - destruct (Z.geb_spec cx (x (position s))) as [Hx1|Hx1];
      [|destruct (Z.leb_spec (x (position s)) cx); [lia|done]].
    destruct (Z.leb_spec (x (position s)) cx) as [_|?]; [|lia]. cbn [andb].
    destruct (js_get_in_range (shape piece) 0) as [row0 Hrow0]; [lia|].
    rewrite Hrow0. apply js_get_Some in Hrow0 as [_ Hrow0].
    destruct (js_get_in_range (shape piece) (cy - y (position s))) as [row Hrow]; [lia|].
    rewrite Hrow. apply js_get_Some in Hrow as [_ Hrow]. rewrite Hrow.
    pose proof (Forall_lookup_1 _ _ _ _ Hrows Hrow0) as Hw0.
    pose proof (Forall_lookup_1 _ _ _ _ Hrows Hrow) as Hw1. cbn in Hw0, Hw1.
    unfold js_get. destruct (Z.ltb_spec (cx - x (position s)) 0); [lia|].
    destruct (Z.ltb_spec cx (x (position s) + Z.of_nat (length row0))) as [Hx2|Hx2].
    + destruct (row !! Z.to_nat (cx - x (position s))) as [v|]; [|done].
      by destruct (truthy v).
    + rewrite (proj2 (lookup_ge_None row _)) by lia. done.
  - rewrite (proj2 (lookup_ge_None (shape piece) _)) by lia.
    by destruct (x (position s) <=? cx).
Qed.

(** X12. For a rectangular piece the colored squares agree with the
    squares [isValidMove] and the merge take as occupied: a square that
    holds a non-empty color string shows that color; any other square shows
    the piece's color when it is one of the piece's occupied squares, and
    white when it is not or when there is no piece. *)
Theorem backgroundColor_shows_board_then_piece (s : State) (cell : Cell) (cx cy : Z) :
  (forall piece, currentPiece s = Some piece -> shape_ok (shape piece) = true) ->
  backgroundColor s cell cx cy
  = Ok match cellColor cell with
       | Some c => c
       | None =>
           match currentPiece s with
           | Some piece =>
               if covers piece (position s) cx cy then color piece else "white"%string
           | None => "white"%string
           end
       end.
Proof. apply backgroundColor_rect. Qed.

Lemma backgroundColor_shows_board_then_piece_witness :
  backgroundColor midState Zero 5 6 = Ok "#aa00ff"%string
  /\ backgroundColor midState Zero 4 6 = Ok "white"%string
  /\ backgroundColor midState (Color "#ffd800") 5 6 = Ok "#ffd800"%string.
Proof.
  assert (Hshape : forall piece, currentPiece midState = Some piece ->
                     shape_ok (shape piece) = true)
    by (intros piece [= <-]; reflexivity).
  rewrite !(backgroundColor_shows_board_then_piece midState _ _ _ Hshape).
  repeat split; reflexivity.
Defined.

(** * One event, in detail *)

Lemma settle_with_piece (t : State) (piece : Tetromino) (rnd : nat) :
  board_ok (board t) = true ->
  currentPiece t = Some piece ->
  exists ok,
    isValidMove (board t) piece (x (position t)) (y (position t)) = Ok ok
    /\ settle t rnd = Ok (if ok then t else flagged t).
Proof.
  intros Hb Hp.
  destruct (isValidMove_total (board t) piece (x (position t)) (y (position t)) Hb)
    as [ok Hmove].
  exists ok. split; [done|].
  assert (Hfirst : runEffects t rnd = Ok (if ok then t else flagged t)).
  { unfold runEffects, gameOverEffect, spawnEffect. rewrite Hp, Hmove. run_bind.
    by destruct ok. }
  unfold settle. rewrite Hfirst. run_bind. destruct ok; [exact Hfirst|].
  unfold runEffects, gameOverEffect, spawnEffect, flagged. cbn.
  rewrite Hp, Hmove. by run_bind.
Qed.

Lemma settle_without_piece (t : State) (rnd : nat) :
  currentPiece t = None ->
  settle t rnd = runEffects (applyUpdates t (spawnNewPiece rnd)) rnd.
Proof.
  intros Hp. unfold settle.
  assert (Hfirst : runEffects t rnd = Ok (applyUpdates t (spawnNewPiece rnd))).
  { unfold runEffects, gameOverEffect, spawnEffect. rewrite Hp. run_bind.
    by rewrite app_nil_r. }
  rewrite Hfirst. by run_bind.
Qed.

Lemma runEffects_with_piece (t : State) (piece : Tetromino) (rnd : nat) :
  board_ok (board t) = true ->
  currentPiece t = Some piece ->
  exists ok,
    isValidMove (board t) piece (x (position t)) (y (position t)) = Ok ok
    /\ runEffects t rnd = Ok (if ok then t else flagged t).
Proof.
  intros Hb Hp.
  destruct (isValidMove_total (board t) piece (x (position t)) (y (position t)) Hb)
    as [ok Hmove].
  exists ok. split; [done|].
  unfold runEffects, gameOverEffect, spawnEffect. rewrite Hp, Hmove. run_bind.
  by destruct ok.
Qed.

(** An event in a game that is not over: the handler commits a state [t],
    the spawn effect gives it a piece if it has none, and the game-over
    effect sets the flag exactly when [isValidMove] rejects that piece. *)
Lemma dispatch_playing (s : State) (ev : Event) (rnd : nat) :
  Inv s -> gameOver s = false -> (rnd < length TETROMINOS)%nat ->
  exists t piece ok,
    commit s (handler s ev rnd) = Ok t
    /\ state_ok t = true
    /\ gameOver t = false
    /\ currentPiece (spawned t rnd) = Some piece
    /\ isValidMove (board t) piece (x (position (spawned t rnd)))
         (y (position (spawned t rnd))) = Ok ok
    /\ dispatch s ev rnd = Ok (if ok then spawned t rnd else flagged (spawned t rnd)).
Proof.
  intros HInv Hgo Hlt.
  assert (Ht : exists t, commit s (handler s ev rnd) = Ok t
                 /\ state_ok t = true /\ gameOver t = false).
  { destruct ev as [key|]; cbn [handler].
    - destruct (handleKeyPress_keyStep s HInv Hgo key rnd Hlt) as (t & Ht & Hok & Hgo' & _).
      exists t. split; [done|]. split; [done|]. congruence.
    - destruct (gameLoop_step s HInv Hgo rnd Hlt) as (t & Ht & Hok & Hgo' & _).
      by exists t. }
  destruct Ht as (t & Ht & Hok & Hgo'). exists t.
  pose proof Hok as Hok'. apply state_ok_iff in Hok' as (Hb & _ & _).
  rewrite dispatch_commit, Ht. run_bind. unfold spawned.
  destruct (currentPiece t) as [piece|] eqn:Hp.
  - destruct (settle_with_piece t piece rnd Hb Hp) as (ok & Hmove & Hset).
    exists piece, ok. by rewrite Hp.
  - destruct (spawn_ok rnd Hlt) as (piece & Hspawn & _).
    rewrite settle_without_piece by done.
    set (t1 := applyUpdates t (spawnNewPiece rnd)).
    assert (Hp1 : currentPiece t1 = Some piece) by (subst t1; cbn; done).
    destruct (runEffects_with_piece t1 piece rnd Hb Hp1) as (ok & Hmove & Hrun).
    exists piece, ok. by rewrite Hp1.
Qed.

Lemma moveHorizontally_frame (s t : State) (d : Z) :
  commit s (moveHorizontally s d) = Ok t ->
  currentPiece t = currentPiece s /\ board t = board s.
Proof.
  unfold commit, moveHorizontally.
  destruct (currentPiece s) as [piece|] eqn:Hp; run_bind; [|by intros [= <-]].
  destruct (isValidMove _ _ _ _) as [[|]|]; run_bind; try discriminate;
    intros [= <-]; cbn; by rewrite ?Hp.
Qed.

Lemma rotate_frame (s t : State) :
  commit s (rotate s) = Ok t ->
  board t = board s
  /\ (currentPiece t = currentPiece s
      \/ exists piece, currentPiece s = Some piece
           /\ currentPiece t = Some (quarterTurn piece)).
Proof.
  unfold commit, rotate.
  destruct (currentPiece s) as [piece|] eqn:Hp; run_bind;
    [|intros [= <-]; split; [done|by left]].
  destruct (rotateShape (shape piece)) as [sh|] eqn:Hrot; run_bind; [|discriminate].
  destruct (isValidMove _ _ _ _) as [[|]|]; run_bind; try discriminate;
    intros [= <-]; cbn; (split; [done|]).
  - right. exists piece. split; [done|]. unfold quarterTurn. by rewrite Hrot.
  - by left.
Qed.

Lemma moveDown_frame (s t : State) (rnd : nat) :
  commit s (moveDown s rnd) = Ok t ->
  (currentPiece t = currentPiece s /\ board t = board s)
  \/ exists piece b', currentPiece s = Some piece
       /\ mergedBoard (board s) piece (position s) = Ok b'
       /\ board t = b' /\ currentPiece t = TETROMINOS !! rnd.
Proof.
  unfold commit, moveDown, mergePieceToBoard, spawnNewPiece.
  destruct (currentPiece s) as [piece|] eqn:Hp; run_bind;
    [|intros [= <-]; by left].
  destruct (isValidMove _ _ _ _) as [[|]|]; run_bind; try discriminate.
  - intros [= <-]. left. cbn. by rewrite Hp.
  - destruct (mergedBoard (board s) piece (position s)) as [b'|] eqn:Hm;
      run_bind; [|discriminate].
    intros [= <-]. right. by exists piece, b'.
Qed.

Lemma handleKeyPress_frame (s t : State) (key : string) (rnd : nat) :
  commit s (handleKeyPress s key rnd) = Ok t ->
  (board t = board s
   \/ exists piece b', currentPiece s = Some piece
        /\ mergedBoard (board s) piece (position s) = Ok b' /\ board t = b')
  /\ (currentPiece t = currentPiece s
      \/ (exists piece, currentPiece s = Some piece
            /\ currentPiece t = Some (quarterTurn piece))
      \/ currentPiece t = TETROMINOS !! rnd).
Proof.
  unfold handleKeyPress. destruct (gameOver s).
  { intros [= <-]. split; by left. }
  destruct (String.eqb key "ArrowLeft").
  { intros Ht. apply moveHorizontally_frame in Ht as [-> ->]. split; by left. }
  destruct (String.eqb key "ArrowRight").
  { intros Ht. apply moveHorizontally_frame in Ht as [-> ->]. split; by left. }
  destruct (String.eqb key "ArrowDown").
  { intros Ht. apply moveDown_frame in Ht as [[-> ->]|(piece & b' & Hp & Hm & Hb & Hnew)].
    - split; by left.
    - split; [right; by exists piece, b'|]. right. by right. }
  destruct (String.eqb key "ArrowUp").
  { intros Ht. apply rotate_frame in Ht as [-> [->|Hrot]]; (split; [by left|]).
    - by left.
    - right. by left. }
  intros [= <-]. split; by left.
Qed.

Lemma gameLoop_frame (s t : State) (rnd : nat) :
  gameOver s = false ->
  commit s (gameLoop s rnd) = Ok t ->
  board t = clearedBoard (board s)
  /\ (currentPiece t = currentPiece s \/ currentPiece t = TETROMINOS !! rnd).
Proof.
  intros Hgo. unfold commit, gameLoop. rewrite Hgo.
  destruct (moveDown s rnd) as [us|] eqn:Hmd; run_bind; [|discriminate].
  intros [= <-]. rewrite applyUpdates_app.
  assert (Ht : commit s (moveDown s rnd) = Ok (applyUpdates s us)).
  { unfold commit. rewrite Hmd. by run_bind. }
  split; [done|]. unfold checkLines. cbn.
  apply moveDown_frame in Ht as [[-> _]|(_ & _ & _ & _ & _ & ->)]; auto.
Qed.

(** * Further invariants of the reachable states *)

Lemma spawned_frame (t : State) (rnd : nat) :
  board (spawned t rnd) = board t
  /\ gameOver (spawned t rnd) = gameOver t
  /\ score (spawned t rnd) = score t.
Proof. unfold spawned. by destruct (currentPiece t). Qed.

Lemma gameOver_piece_rejected (s : State) :
  reachable s -> gameOver s = true ->
  exists piece, currentPiece s = Some piece
    /\ isValidMove (board s) piece (x (position s)) (y (position s)) = Ok false.
Proof.
  induction 1 as [|s ev rnd s' Hreach IH Hlt Hstep]; [discriminate|].
  pose proof (reachable_Inv s Hreach) as HInv.
  destruct (gameOver s) eqn:Hgo.
  - rewrite (dispatch_gameOver s ev rnd HInv Hgo) in Hstep. injection Hstep as <-.
    intros _. by apply IH.
  - destruct (dispatch_playing s ev rnd HInv Hgo Hlt)
      as (t & piece & ok & _ & _ & Hgo' & Hp & Hmove & Hs').
    rewrite Hstep in Hs'. injection Hs' as ->.
    destruct (spawned_frame t rnd) as (Hb & Hg & _).
    destruct ok.
    + rewrite Hg, Hgo'. discriminate.
    + intros _. exists piece. cbn. by rewrite Hb.
Qed.

(** X13. In every reachable state the game-over flag is set exactly when
    there is a piece and [isValidMove] rejects it where it stands, on the
    board of that state. *)
Theorem gameOver_iff_piece_rejected (s : State) :
  reachable s ->
  gameOver s = true <->
  exists piece, currentPiece s = Some piece
    /\ isValidMove (board s) piece (x (position s)) (y (position s)) = Ok false.
Proof.
  intros Hreach. split; [by apply gameOver_piece_rejected|].
  intros (piece & Hp & Hmove).
  destruct (reachable_Inv s Hreach) as (_ & Hvalid & _).
  destruct (gameOver s); [done|].
  rewrite (Hvalid eq_refl piece Hp) in Hmove. discriminate.
Qed.

Lemma gameOver_iff_piece_rejected_witness :
  reachable gameOverState
  /\ gameOver gameOverState = true
  /\ exists piece, currentPiece gameOverState = Some piece
       /\ isValidMove (board gameOverState) piece
            (x (position gameOverState)) (y (position gameOverState)) = Ok false.
Proof.
  split; [apply gameOverState_reachable|]. split; [vm_compute; reflexivity|].
  apply (gameOver_iff_piece_rejected gameOverState gameOverState_reachable).
  vm_compute. reflexivity.
Defined.

Lemma quarterTurn_closed (piece : Tetromino) :
  piece ∈ allOrientations -> quarterTurn piece ∈ allOrientations.
Proof.
  intros Hin. apply list_elem_of_In in Hin. vm_compute in Hin.
  repeat (destruct Hin as [<-|Hin]; [pick_member|]). destruct Hin.
Qed.

Lemma orientation_facts (piece : Tetromino) :
  piece ∈ allOrientations ->
  countOccupied (shape piece) = 4%nat
  /\ color piece ∈ palette
  /\ shape_ok (shape piece) = true.
Proof.
  intros Hin. apply list_elem_of_In in Hin. vm_compute in Hin.
  repeat (destruct Hin as [<-|Hin];
          [split; [reflexivity|split; [pick_member|reflexivity]]|]).
  destruct Hin.
Qed.

Lemma spawn_in_orientations (rnd : nat) (piece : Tetromino) :
  TETROMINOS !! rnd = Some piece -> piece ∈ allOrientations.
Proof.
  intros Hp.
  do 7 (destruct rnd as [|rnd]; [injection Hp as <-; pick_member|]).
  discriminate.
Qed.

Lemma reachable_piece (s : State) :
  reachable s ->
  s = initialState
  \/ exists piece, currentPiece s = Some piece /\ piece ∈ allOrientations.
Proof.
  induction 1 as [|s ev rnd s' Hreach IH Hlt Hstep]; [by left|]. right.
  pose proof (reachable_Inv s Hreach) as HInv.
  destruct (gameOver s) eqn:Hgo.
  { rewrite (dispatch_gameOver s ev rnd HInv Hgo) in Hstep. injection Hstep as <-.
    destruct IH as [->|IH]; [discriminate|done]. }
  destruct (dispatch_playing s ev rnd HInv Hgo Hlt)
    as (t & piece & ok & Ht & _ & _ & Hp & _ & Hs').
  rewrite Hstep in Hs'. injection Hs' as ->.
  exists piece. split; [by destruct ok|].
  assert (Hold : forall q, currentPiece s = Some q -> q ∈ allOrientations).
  { intros q Hq. destruct IH as [->|(q' & Hq' & Hin)]; [discriminate|]. congruence. }
  assert (Hframe : currentPiece t = currentPiece s
                   \/ (exists q, currentPiece s = Some q
                         /\ currentPiece t = Some (quarterTurn q))
                   \/ currentPiece t = TETROMINOS !! rnd).
  { destruct ev as [key|]; cbn [handler] in Ht.
    - by apply handleKeyPress_frame in Ht as [_ Hpiece].
    - apply gameLoop_frame in Ht as [_ [?|?]]; auto. }
  unfold spawned in Hp. destruct (currentPiece t) as [q|] eqn:Hq.
  - rewrite Hq in Hp. injection Hp as ->.
    destruct Hframe as [Hsame|[(q & Hq0 & Hrot)|Hnew]].
    + apply Hold. congruence.
    + injection Hrot as ->. by apply quarterTurn_closed, Hold.
    + by apply (spawn_in_orientations rnd).
  - cbn in Hp. by apply (spawn_in_orientations rnd).
Qed.

(** X14. Once the first event has been handled there is always a current
    piece, and it is one of the seven tetrominoes in one of its four
    orientations, with the color it was listed with: it has four occupied
    squares and a non-degenerate rectangular matrix. *)
Theorem piece_is_an_oriented_tetromino (s : State) :
  reachable s ->
  s = initialState
  \/ exists piece, currentPiece s = Some piece
       /\ piece ∈ allOrientations
       /\ countOccupied (shape piece) = 4%nat
       /\ color piece ∈ palette
       /\ shape_ok (shape piece) = true.
Proof.
  intros Hreach. destruct (reachable_piece s Hreach) as [->|(piece & Hp & Hin)]; [by left|].
  right. exists piece. split; [done|]. split; [done|]. by apply orientation_facts.
Qed.

Lemma piece_is_an_oriented_tetromino_witness :
  reachable fullRowsState
  /\ exists piece, currentPiece fullRowsState = Some piece
       /\ countOccupied (shape piece) = 4%nat.
Proof.
  split; [apply fullRowsState_reachable|].
  destruct (piece_is_an_oriented_tetromino fullRowsState fullRowsState_reachable)
    as [Hinit|(piece & Hp & _ & Hcount & _)].
  - vm_compute in Hinit. discriminate Hinit.
  - exists piece. split; [exact Hp|exact Hcount].
Defined.

(** X15. In every reachable state the score is a non-negative multiple of
    100. *)
Theorem score_is_multiple_of_100 (s : State) :
  reachable s -> exists k : nat, score s = 100 * Z.of_nat k.
Proof.
  induction 1 as [|s ev rnd s' Hreach [k Hk] Hlt Hstep]; [by exists 0%nat|].
  destruct (dispatch_spec s ev rnd (reachable_Inv s Hreach) Hlt) as (s2 & Hs2 & _ & _ & Hev).
  rewrite Hstep in Hs2. injection Hs2 as <-. destruct ev as [key|].
  - destruct Hev as [-> _]. by exists k.
  - destruct Hev as [_ ->]. destruct (gameOver s).
    + exists k. lia.
    + exists (k + countComplete (board s))%nat. lia.
Qed.

Lemma clearedState_reachable : reachable clearedState.
Proof. apply stateAfter_reachable. vm_compute. reflexivity. Qed.

Lemma score_is_multiple_of_100_witness :
  reachable clearedState
  /\ score clearedState = 200
  /\ exists k : nat, score clearedState = 100 * Z.of_nat k.
Proof.
  split; [apply clearedState_reachable|]. split; [vm_compute; reflexivity|].
  apply (score_is_multiple_of_100 clearedState clearedState_reachable).
Defined.

Lemma clearedBoard_cell_origin (b : Board) (X Y : Z) (c : string) :
  length b = Z.to_nat BOARD_HEIGHT ->
  cellAt (clearedBoard b) X Y = Some (Color c) ->
  exists Y', cellAt b X Y' = Some (Color c).
Proof.
  intros Hlen. destruct (clearedBoard_spec b Hlen) as [-> _]. unfold cellAt.
  destruct (js_get _ Y) as [row|] eqn:Hrow; [|discriminate]. cbn. intros Hc.
  apply js_get_Some in Hrow as [_ Hrow].
  apply lookup_app_Some in Hrow as [Hrow|[_ Hrow]].
  - apply lookup_replicate in Hrow as [-> _].
    apply js_get_Some in Hc as [_ Hc]. by apply lookup_replicate in Hc as [? _].
  - assert (Hin : row ∈ removeComplete b) by (apply list_elem_of_lookup; eauto).
    apply elem_of_removeComplete in Hin as [Hin _].
    apply list_elem_of_lookup in Hin as [i Hi]. exists (Z.of_nat i).
    assert (Hget : js_get b (Z.of_nat i) = Some row).
    { apply js_get_Some. split; [lia|]. by rewrite Nat2Z.id. }
    by rewrite Hget.
Qed.

Lemma reachable_palette (s : State) :
  reachable s ->
  forall X Y c, cellAt (board s) X Y = Some (Color c) -> c ∈ palette.
Proof.
  induction 1 as [|s ev rnd s' Hreach IH Hlt Hstep].
  { intros X Y c Hc. apply createEmptyBoard_cells in Hc. discriminate Hc. }
  pose proof (reachable_Inv s Hreach) as HInv.
  destruct (gameOver s) eqn:Hgo.
  { rewrite (dispatch_gameOver s ev rnd HInv Hgo) in Hstep. by injection Hstep as <-. }
  destruct (dispatch_playing s ev rnd HInv Hgo Hlt)
    as (t & piece & ok & Ht & _ & _ & _ & _ & Hs').
  rewrite Hstep in Hs'. injection Hs' as ->.
  destruct (spawned_frame t rnd) as (Hb & _ & _).
  assert (Hboard : board (if ok then spawned t rnd else flagged (spawned t rnd)) = board t)
    by (by destruct ok).
  rewrite Hboard. clear Hboard Hb.
  destruct HInv as (Hok & _ & _). apply state_ok_iff in Hok as (Hbs & _ & Hpiece).
  destruct ev as [key|]; cbn [handler] in Ht.
  - apply handleKeyPress_frame in Ht as [[->|(q & b' & Hq & Hm & ->)] _]; [done|].
    destruct (Hpiece q Hq) as [_ Hin].
    destruct (mergedBoard_spec (board s) q (position s) Hbs Hin) as (b2 & Hb2 & _ & Hcells).
    rewrite Hm in Hb2. injection Hb2 as <-.
    intros X Y c. rewrite Hcells. destruct (covers q (position s) X Y); [|apply IH].
    intros [= <-].
    destruct (reachable_piece s Hreach) as [->|(q' & Hq' & Hmem)]; [discriminate|].
    assert (q' = q) as -> by congruence. by apply orientation_facts.
  - apply gameLoop_frame in Ht as [-> _]; [|done].
    intros X Y c Hc. apply board_ok_iff in Hbs as [Hlen _].
    apply clearedBoard_cell_origin in Hc as [Y' Hc]; [|done]. by apply (IH X Y').
Qed.

(** X16. Every colored square of the board of a reachable state holds the
    color of one of the seven tetrominoes; none holds the empty string,
    which the renderer would take for an empty square. *)
Theorem board_colors_from_palette (s : State) :
  reachable s ->
  forall X Y c, cellAt (board s) X Y = Some (Color c) ->
    c ∈ palette /\ cellColor (Color c) = Some c.
Proof.
  intros Hreach X Y c Hc.
  pose proof (reachable_palette s Hreach X Y c Hc) as Hin. split; [done|].
  apply cellColor_nonempty. intros ->.
  apply list_elem_of_In in Hin. vm_compute in Hin.
  repeat (destruct Hin as [Hin|Hin]; [discriminate Hin|]). destruct Hin.
Qed.

Lemma board_colors_from_palette_witness :
  reachable fullRowsState
  /\ cellAt (board fullRowsState) 0 19 = Some (Color "#ffd800")
  /\ "#ffd800"%string ∈ palette.
Proof.
  split; [apply fullRowsState_reachable|].
  assert (Hc : cellAt (board fullRowsState) 0 19 = Some (Color "#ffd800"))
    by (vm_compute; reflexivity).
  split; [exact Hc|].
  exact (proj1 (board_colors_from_palette fullRowsState fullRowsState_reachable 0 19 _ Hc)).
Defined.

(** X17. A gravity tick in a game that is not over never merges the piece.
    When the piece can move down it moves; when it cannot, it is replaced
    by a new piece at the spawn origin.  In both cases the board after the
    tick is the line clear of the board before it, because the board queued
    by the merge is overwritten in the same batch by the one [checkLines]
    computed from the rendered board: every colored square after the tick
    was a colored square of the same column before. *)
Theorem tick_never_merges (s : State) (piece : Tetromino) (rnd : nat) :
  reachable s ->
  gameOver s = false ->
  currentPiece s = Some piece ->
  (rnd < length TETROMINOS)%nat ->
  exists ok s',
    isValidMove (board s) piece (x (position s)) (y (position s) + 1) = Ok ok
    /\ dispatch s Tick rnd = Ok s'
    /\ board s' = clearedBoard (board s)
    /\ currentPiece s' = (if ok then Some piece else TETROMINOS !! rnd)
    /\ position s' = (if ok then {| x := x (position s); y := y (position s) + 1 |}
                      else spawnPosition)
    /\ (forall X Y c, cellAt (board s') X Y = Some (Color c) ->
          exists Y', cellAt (board s) X Y' = Some (Color c)).
Proof.
  intros Hreach Hgo Hp Hlt. pose proof (reachable_Inv s Hreach) as HInv.
  pose proof HInv as (Hok & _ & _). apply state_ok_iff in Hok as (Hb & _ & Hpiece).
  destruct (Hpiece piece Hp) as [_ Hin].
  destruct (isValidMove_total (board s) piece (x (position s)) (y (position s) + 1) Hb)
    as [ok Hmove].
  destruct (spawn_ok rnd Hlt) as (piece' & Hspawn & _).
  assert (Hcommit : exists t, commit s (handler s Tick rnd) = Ok t
            /\ board t = clearedBoard (board s)
            /\ currentPiece t = (if ok then Some piece else TETROMINOS !! rnd)
            /\ position t = (if ok then {| x := x (position s); y := y (position s) + 1 |}
                             else spawnPosition)).
  { cbn [handler]. unfold commit, gameLoop, moveDown, mergePieceToBoard, spawnNewPiece, checkLines.
    rewrite Hgo, Hp, Hmove. run_bind. destruct ok; run_bind.
    - eexists. split; [done|]. cbn. by rewrite Hp.
    - destruct (mergedBoard_spec (board s) piece (position s) Hb Hin) as (b' & Hm & _).
      rewrite Hm. run_bind. eexists. split; [done|]. done. }
  destruct Hcommit as (t & Ht & Hbt & Hpt & Hpos).
  destruct (dispatch_playing s Tick rnd HInv Hgo Hlt)
    as (t2 & q & ok2 & Ht2 & _ & _ & _ & _ & Hs').
  rewrite Ht in Ht2. injection Ht2 as <-.
  assert (Hsp : spawned t rnd = t).
  { unfold spawned. rewrite Hpt. destruct ok; [done|]. by rewrite Hspawn. }
  rewrite Hsp in Hs'.
  exists ok, (if ok2 then t else flagged t). split; [done|]. split; [done|].
  assert (Hframe : board (if ok2 then t else flagged t) = board t
                   /\ currentPiece (if ok2 then t else flagged t) = currentPiece t
                   /\ position (if ok2 then t else flagged t) = position t)
    by (by destruct ok2).
  destruct Hframe as (-> & -> & ->).
  split; [done|]. split; [done|]. split; [done|].
  intros X Y c. rewrite Hbt. apply clearedBoard_cell_origin.
  by apply board_ok_iff in Hb as [Hlen _].
Qed.

Lemma restingState_reachable : reachable restingState.
Proof.
  assert (Heq : stateAfter toTheFloor = restingState) by (vm_compute; reflexivity).
  rewrite <- Heq. apply stateAfter_reachable. vm_compute. reflexivity.
Qed.

Lemma tick_never_merges_witness :
  reachable restingState
  /\ isValidMove (board restingState) O_piece 4 19 = Ok false
  /\ exists s', dispatch restingState Tick 1 = Ok s'
       /\ board s' = createEmptyBoard
       /\ currentPiece s' = Some I_piece.
Proof.
  split; [apply restingState_reachable|]. split; [reflexivity|].
  destruct (tick_never_merges restingState O_piece 1 restingState_reachable eq_refl eq_refl)
    as (ok & s' & Hok & Hs' & Hb & Hp & _); [vm_compute; lia|].
  exists s'. split; [exact Hs'|]. split.
  - rewrite Hb. vm_compute. reflexivity.
  - rewrite Hp. vm_compute in Hok. injection Hok as <-. reflexivity.
Defined.

(** * Key presses, in detail *)

Lemma horizontal_dispatch (s : State) (piece : Tetromino) (key : string) (d : Z) (rnd : nat) :
  board_ok (board s) = true ->
  gameOver s = false ->
  currentPiece s = Some piece ->
  isValidMove (board s) piece (x (position s)) (y (position s)) = Ok true ->
  handleKeyPress s key rnd = moveHorizontally s d ->
  exists ok,
    isValidMove (board s) piece (x (position s) + d) (y (position s)) = Ok ok
    /\ dispatch s (KeyDown key) rnd
       = Ok (if ok
             then withPosition s {| x := x (position s) + d; y := y (position s) |}
             else s).
Proof.
  intros Hb Hgo Hp Hvalid Hkey.
  destruct (isValidMove_total (board s) piece (x (position s) + d) (y (position s)) Hb)
    as [ok Hmove].
  exists ok. split; [done|].
  unfold dispatch. cbn [handler]. rewrite Hkey. unfold moveHorizontally.
  rewrite Hp, Hmove. run_bind. destruct ok; run_bind.
  - set (t := withPosition s {| x := x (position s) + d; y := y (position s) |}).
    destruct (settle_with_piece t piece rnd Hb Hp) as (ok' & Hmove' & Hset).
    cbn in Hmove'. rewrite Hmove in Hmove'. injection Hmove' as <-. exact Hset.
  - destruct (settle_with_piece s piece rnd Hb Hp) as (ok' & Hmove' & Hset).
    rewrite Hvalid in Hmove'. injection Hmove' as <-. exact Hset.
Qed.

Lemma mount_position (rnd : nat) (s1 : State) (ev : Event) :
  dispatch initialState ev rnd = Ok s1 -> x (position s1) = 4.
Proof.
  assert (Hsettle : settle initialState rnd = Ok s1 -> x (position s1) = 4).
  { rewrite settle_without_piece by done.
    unfold runEffects, gameOverEffect, spawnEffect, spawnNewPiece. cbn.
    destruct (TETROMINOS !! rnd) as [piece|]; cbn.
    - destruct (isValidMove _ _ _ _) as [[|]|]; run_bind; try discriminate;
        by intros [= <-].
    - by intros [= <-]. }
  unfold dispatch. destruct ev as [key|]; cbn [handler].
  - unfold handleKeyPress, moveHorizontally, moveDown, rotate. cbn.
    destruct (String.eqb key "ArrowLeft"); [exact Hsettle|].
    destruct (String.eqb key "ArrowRight"); [exact Hsettle|].
    destruct (String.eqb key "ArrowDown"); [exact Hsettle|].
    destruct (String.eqb key "ArrowUp"); exact Hsettle.
  - exact Hsettle.
Qed.

Lemma horizontal_undo (s s1 : State) (key key' : string) (d : Z) (rnd rnd' : nat) :
  reachable s ->
  d = 1 \/ d = -1 ->
  (forall t r, gameOver t = false -> handleKeyPress t key r = moveHorizontally t d) ->
  (forall t r, gameOver t = false -> handleKeyPress t key' r = moveHorizontally t (- d)) ->
  dispatch s (KeyDown key) rnd = Ok s1 ->
  x (position s1) = x (position s) + d ->
  dispatch s1 (KeyDown key') rnd' = Ok s.
Proof.
  intros Hreach Hd Hkey Hkey' Hstep Hx.
  pose proof (reachable_Inv s Hreach) as HInv.
  destruct (gameOver s) eqn:Hgo.
  { rewrite (dispatch_gameOver s _ rnd HInv Hgo) in Hstep. injection Hstep as <-. lia. }
  destruct (reachable_piece s Hreach) as [->|(piece & Hp & _)].
  { apply mount_position in Hstep. cbn in Hx. lia. }
  destruct HInv as (Hok & Hvalid & _). apply state_ok_iff in Hok as (Hb & _ & _).
  specialize (Hvalid Hgo piece Hp).
  destruct (horizontal_dispatch s piece key d rnd Hb Hgo Hp Hvalid (Hkey s rnd Hgo))
    as (ok & Hmove & Hs1).
  rewrite Hstep in Hs1. injection Hs1 as ->.
  destruct ok; [|lia].
  set (s1 := withPosition s {| x := x (position s) + d; y := y (position s) |}).
  destruct (horizontal_dispatch s1 piece key' (- d) rnd' Hb Hgo Hp Hmove (Hkey' s1 rnd' Hgo))
    as (ok' & Hmove' & Hs).
  cbn in Hmove'. replace (x (position s) + d + - d) with (x (position s)) in Hmove' by lia.
  rewrite Hvalid in Hmove'. injection Hmove' as <-.
  rewrite Hs. f_equal. unfold withPosition. cbn.
  replace (x (position s) + d + - d) with (x (position s)) by lia.
  destruct s as [b p [px py] g sc]. reflexivity.
Qed.

Lemma handleKeyPress_left (t : State) (r : nat) :
  gameOver t = false -> handleKeyPress t "ArrowLeft" r = moveHorizontally t (-1).
Proof. intros Hgo. unfold handleKeyPress. by rewrite Hgo. Qed.

Lemma handleKeyPress_right (t : State) (r : nat) :
  gameOver t = false -> handleKeyPress t "ArrowRight" r = moveHorizontally t 1.
Proof. intros Hgo. unfold handleKeyPress. by rewrite Hgo. Qed.

(** X18. A horizontal move that took place is undone by the opposite key:
    from a reachable state, when ArrowLeft has moved the piece one column
    to the left, ArrowRight brings back the very state the game was in, and
    the other way round. *)
Theorem horizontal_moves_undo (s s1 : State) (rnd rnd' : nat) :
  reachable s ->
  (dispatch s (KeyDown "ArrowLeft") rnd = Ok s1 ->
   x (position s1) = x (position s) - 1 ->
   dispatch s1 (KeyDown "ArrowRight") rnd' = Ok s)
  /\ (dispatch s (KeyDown "ArrowRight") rnd = Ok s1 ->
      x (position s1) = x (position s) + 1 ->
      dispatch s1 (KeyDown "ArrowLeft") rnd' = Ok s).
Proof.
  intros Hreach. split; intros Hstep Hx.
  - apply (horizontal_undo s s1 "ArrowLeft" "ArrowRight" (-1) rnd rnd');
      [done|by right|apply handleKeyPress_left|apply handleKeyPress_right|done|lia].
  - apply (horizontal_undo s s1 "ArrowRight" "ArrowLeft" 1 rnd rnd');
      [done|by left|apply handleKeyPress_right|apply handleKeyPress_left|done|done].
Qed.

Lemma playingState_reachable : reachable playingState.
Proof. apply stateAfter_reachable. vm_compute. reflexivity. Qed.

Lemma horizontal_moves_undo_witness :
  reachable playingState
  /\ exists s1, dispatch playingState (KeyDown "ArrowLeft") 0 = Ok s1
       /\ x (position s1) = x (position playingState) - 1
       /\ dispatch s1 (KeyDown "ArrowRight") 0 = Ok playingState.
Proof.
  split; [apply playingState_reachable|].
  destruct (dispatch playingState (KeyDown "ArrowLeft") 0) as [s1|] eqn:Hs1;
    [|vm_compute in Hs1; discriminate Hs1].
  assert (Hx : x (position s1) = x (position playingState) - 1).
  { vm_compute in Hs1. injection Hs1 as <-. vm_compute. reflexivity. }
  exists s1. split; [reflexivity|]. split; [exact Hx|].
  exact (proj1 (horizontal_moves_undo playingState s1 0 0 playingState_reachable) Hs1 Hx).
Defined.

(** X19. Once the first event has been handled, a key that is not one of
    the four arrow keys queues nothing and leaves the state as it is. *)
Theorem other_keys_ignored (s : State) (key : string) (rnd : nat) :
  reachable s ->
  s <> initialState ->
  key ∉ arrowKeys ->
  handleKeyPress s key rnd = Ok [] /\ dispatch s (KeyDown key) rnd = Ok s.
Proof.
  intros Hreach Hinit Hkey.
  assert (Hnone : handleKeyPress s key rnd = Ok []).
  { unfold arrowKeys in Hkey. rewrite !not_elem_of_cons in Hkey.
    destruct Hkey as (Hl & Hr & Hd & Hu & _).
    unfold handleKeyPress. destruct (gameOver s); [done|].
    apply String.eqb_neq in Hl, Hr, Hd, Hu. by rewrite Hl, Hr, Hd, Hu. }
  split; [exact Hnone|].
  pose proof (reachable_Inv s Hreach) as HInv.
  destruct (reachable_piece s Hreach) as [->|(piece & Hp & _)]; [done|].
  assert (Hstable : runEffects s rnd = Ok s) by (apply runEffects_stable; [done|congruence]).
  unfold dispatch. cbn [handler]. rewrite Hnone. run_bind.
  unfold settle. rewrite Hstable. run_bind. exact Hstable.
Qed.

Lemma other_keys_ignored_witness :
  reachable playingState
  /\ dispatch playingState (KeyDown " ") 3 = Ok playingState.
Proof.
  split; [apply playingState_reachable|].
  apply (other_keys_ignored playingState " " 3 playingState_reachable).
  - intros Heq. vm_compute in Heq. discriminate Heq.
  - unfold arrowKeys. rewrite !not_elem_of_cons. repeat split; try discriminate.
    apply not_elem_of_nil.
Defined.

Lemma palette_nonempty (c : string) : c ∈ palette -> c <> ""%string.
Proof.
  intros Hin ->. apply list_elem_of_In in Hin. vm_compute in Hin.
  repeat (destruct Hin as [Hin|Hin]; [discriminate Hin|]). destruct Hin.
Qed.

(** X20. What is drawn for a reachable state: a colored square of the board
    shows its color, every other square shows the piece's color if it is
    one of the piece's occupied squares and white if not.  While the game
    is not over all the occupied squares of the piece that lie on the board
    are drawn in the piece's color, none is hidden by the board. *)
Theorem reachable_squares_drawn (s : State) (cell : Cell) (cx cy : Z) :
  reachable s ->
  cellAt (board s) cx cy = Some cell ->
  backgroundColor s cell cx cy
  = Ok match cell with
       | Color c => c
       | _ =>
           match currentPiece s with
           | Some piece =>
               if covers piece (position s) cx cy then color piece else "white"%string
           | None => "white"%string
           end
       end
  /\ (gameOver s = false ->
      forall piece, currentPiece s = Some piece ->
        covers piece (position s) cx cy = true ->
        backgroundColor s cell cx cy = Ok (color piece)).
Proof.
  intros Hreach Hcell. pose proof (reachable_Inv s Hreach) as (Hok & Hvalid & _).
  apply state_ok_iff in Hok as (Hb & Hy & Hpiece).
  assert (Hdraw : backgroundColor s cell cx cy
                  = Ok match cellColor cell with
                       | Some c => c
                       | None =>
                           match currentPiece s with
                           | Some piece =>
                               if covers piece (position s) cx cy
                               then color piece else "white"%string
                           | None => "white"%string
                           end
                       end).
  { apply backgroundColor_rect. intros piece Hp. by apply Hpiece. }
  split.
  - rewrite Hdraw. destruct cell as [|c|]; [done| |done].
    rewrite cellColor_nonempty; [done|].
    by apply palette_nonempty, (reachable_palette s Hreach cx cy).
  - intros Hgo piece Hp Hcov. rewrite Hdraw, Hp, Hcov.
    pose proof Hcov as Hhit. apply covers_iff in Hhit as (i & j & Hocc & -> & ->).
    destruct (isValidMove_true_cells (board s) piece _ _ Hb (Hvalid Hgo piece Hp) i j Hocc)
      as (_ & _ & Hzero).
    rewrite Z.add_0_l in Hcell. rewrite Hzero in Hcell by lia.
    by injection Hcell as <-.
Qed.

Lemma reachable_squares_drawn_witness :
  reachable playingState
  /\ cellAt (board playingState) 3 1 = Some Zero
  /\ backgroundColor playingState Zero 3 1 = Ok "#ffd800"%string.
Proof.
  split; [apply playingState_reachable|].
  assert (Hcell : cellAt (board playingState) 3 1 = Some Zero) by (vm_compute; reflexivity).
  split; [exact Hcell|].
  destruct (reachable_squares_drawn playingState Zero 3 1 playingState_reachable Hcell)
    as [_ Hpiece].
  apply (Hpiece ltac:(vm_compute; reflexivity) O_piece); vm_compute; reflexivity.
Defined.

(** X21. Pressing ArrowDown when the piece cannot move down settles it: the
    board of the next state holds the piece's color on exactly the squares
    the piece occupied and is unchanged elsewhere, the score is unchanged,
    the piece drawn by the spawn stands at the spawn origin, and the game is
    over exactly when [isValidMove] rejects that new piece on the new
    board. *)
Theorem arrowDown_settles (s : State) (piece : Tetromino) (rnd : nat) :
  reachable s ->
  gameOver s = false ->
  currentPiece s = Some piece ->
  (rnd < length TETROMINOS)%nat ->
  isValidMove (board s) piece (x (position s)) (y (position s) + 1) = Ok false ->
  exists s' piece',
    dispatch s (KeyDown "ArrowDown") rnd = Ok s'
    /\ TETROMINOS !! rnd = Some piece'
    /\ currentPiece s' = Some piece'
    /\ position s' = spawnPosition
    /\ score s' = score s
    /\ (forall X Y, cellAt (board s') X Y =
          if covers piece (position s) X Y
          then Some (Color (color piece)) else cellAt (board s) X Y)
    /\ (gameOver s' = true <->
        isValidMove (board s') piece' (x spawnPosition) (y spawnPosition) = Ok false).
Proof.
  intros Hreach Hgo Hp Hlt Hmove. pose proof (reachable_Inv s Hreach) as HInv.
  pose proof HInv as (Hok & _ & _). apply state_ok_iff in Hok as (Hb & _ & Hpiece).
  destruct (Hpiece piece Hp) as [_ Hin].
  destruct (spawn_ok rnd Hlt) as (piece' & Hspawn & _).
  destruct (mergedBoard_spec (board s) piece (position s) Hb Hin) as (b' & Hm & Hb' & Hcells).
  set (t := {| board := b'; currentPiece := Some piece'; position := spawnPosition;
               gameOver := false; score := score s |}).
  assert (Hcommit : commit s (handler s (KeyDown "ArrowDown") rnd) = Ok t).
  { cbn [handler]. unfold commit, handleKeyPress, moveDown, mergePieceToBoard, spawnNewPiece.
    rewrite Hgo. cbn [String.eqb Ascii.eqb Bool.eqb andb]. rewrite Hp, Hmove. run_bind.
    rewrite Hm. run_bind. rewrite Hspawn, Hgo. done. }
  destruct (settle_with_piece t piece' rnd Hb' eq_refl) as (ok & Hnew & Hset).
  exists (if ok then t else flagged t), piece'.
  split; [by rewrite dispatch_commit, Hcommit|]. split; [done|].
  destruct ok; cbn; (split; [done|split; [done|split; [done|split; [done|]]]]).
  - split; [discriminate|]. intros Hrej. cbn in Hnew. congruence.
  - split; [|done]. intros _. exact Hnew.
Qed.

Lemma arrowDown_settles_witness :
  reachable restingState
  /\ exists s', dispatch restingState (KeyDown "ArrowDown") 1 = Ok s'
       /\ cellAt (board s') 5 19 = Some (Color "#ffd800")
       /\ currentPiece s' = Some I_piece.
Proof.
  split; [apply restingState_reachable|].
  destruct (arrowDown_settles restingState O_piece 1 restingState_reachable
              eq_refl eq_refl) as (s' & piece' & Hs' & Hspawn & Hp & _ & _ & Hcells & _);
    [vm_compute; lia|reflexivity|].
  exists s'. split; [exact Hs'|]. split.
  - rewrite Hcells. reflexivity.
  - rewrite Hp, <- Hspawn. reflexivity.
Defined.
